(** * Shallow embedding of AAFInspector-Extended

    - [ParseAAF]: the timeline reconstructor of [parse_aaf.py], over the
      JSON documents that [json.load] produces.
    - [Inspector]: the lazy [TreeItem] tree and the JSON export of
      [AAFInspector.py] and [AAFInspector-enhanced.py], and the recursive
      [build_node] of [AAFInspector-Extended-Batch.py], over a tagged-variant
      model of the aaf2 object graph.
    - [Batch]: the [Worker] loop of [AAFInspector-Extended-Batch.py].

    Python exceptions are modelled with [option]: [None] means "raises". *)

From Stdlib Require Import ZArith QArith String Ascii List Bool Lia Permutation Sorted.
Import ListNotations.
Set Warnings "-register-all".

Module ParseAAF.

Open Scope string_scope.

(** ** JSON values, as returned by [json.load].
    Floats are finite and kept exactly as rationals. *)
Inductive json : Type :=
| JNull
| JBool (b : bool)
| JInt (z : Z)
| JFloat (q : Q)
| JStr (s : string)
| JArr (l : list json)
| JObj (fields : list (string * json)).

(** [json.load] keeps the last binding of a duplicated key. *)
Definition dget (f : list (string * json)) (k : string) : option json :=
  match find (fun kv => String.eqb (fst kv) k) (rev f) with
  | Some (_, v) => Some v
  | None => None
  end.

Definition is_dict (j : json) : bool :=
  match j with JObj _ => true | _ => false end.

(** Python truthiness. *)
Definition truthy (j : json) : bool :=
  match j with
  | JNull => false
  | JBool b => b
  | JInt z => negb (Z.eqb z 0)
  | JFloat q => negb (Qeq_bool q 0)
  | JStr s => negb (String.eqb s "")
  | JArr l => match l with [] => false | _ => true end
  | JObj f => match f with [] => false | _ => true end
  end.

(** [j == "s"] for a JSON value and a Python string. *)
Definition is_str (s : string) (j : json) : bool :=
  match j with JStr t => String.eqb t s | _ => false end.

(** [d.get(k, default)] on a dict; [.get] on anything else raises. *)
Definition py_get_default (j : json) (k : string) (dflt : json) : option json :=
  match j with
  | JObj f => match dget f k with Some v => Some v | None => Some dflt end
  | _ => None
  end.

Definition py_get (j : json) (k : string) : option json := py_get_default j k JNull.

(** [for x in j]: a list yields its elements, a dict its keys, a string its
    one-character strings; iterating a number, a bool or [None] raises. *)
Definition py_iter (j : json) : option (list json) :=
  match j with
  | JArr l => Some l
  | JObj f => Some (map (fun kv => JStr (fst kv)) f)
  | JStr s => Some (map (fun c => JStr (String c EmptyString)) (list_ascii_of_string s))
  | _ => None
  end.

Fixpoint str_prefix (p s : string) : bool :=
  match p, s with
  | EmptyString, _ => true
  | String a p', String b s' => Ascii.eqb a b && str_prefix p' s'
  | _, _ => false
  end.

Fixpoint str_contains (p s : string) : bool :=
  str_prefix p s || match s with EmptyString => false | String _ s' => str_contains p s' end.

(** [if not x or 'children' not in x: <stop>] followed by [x['children']]:
    [Some None] stops, [Some (Some ch)] continues with [ch], [None] raises
    ([in] on a number or bool, or [x['children']] on a list or string that
    contains ["children"]). *)
Definition children_of (x : json) : option (option json) :=
  if negb (truthy x) then Some None else
  match x with
  | JObj f => match dget f "children" with Some ch => Some (Some ch) | None => Some None end
  | JArr l => if existsb (is_str "children") l then None else Some None
  | JStr s => if str_contains "children" s then None else Some None
  | _ => None
  end.

(** ** [get_child_property(node, child_name, property_name='value')]

    [property_name] is [None] (Python [None]) or [Some p].  A dict loaded
    from JSON has only string keys, so [child.get(None)] is [None]. *)
Definition get_prop (child : json) (property_name : option string) : json :=
  match property_name with
  | None => JNull
  | Some p => match child with JObj f => match dget f p with Some v => v | None => JNull end | _ => JNull end
  end.

Definition named (child_name : string) (child : json) : bool :=
  match child with
  | JObj f => match dget f "name" with Some v => is_str child_name v | None => false end
  | _ => false
  end.

Definition get_child_property (node : json) (child_name : string)
    (property_name : option string) : option json :=
  match node with
  | JObj f =>
      match dget f "children" with
      | None => Some JNull
      | Some ch =>
          match py_iter ch with
          | None => None
          | Some l =>
              match find (named child_name) l with
              | Some child => Some (get_prop child property_name)
              | None => Some JNull
              end
          end
      end
  | _ => Some JNull
  end.

Definition value_of (node : json) (child_name : string) : option json :=
  get_child_property node child_name (Some "value").

(** ** [find_node_by_path(node, path)] *)
Fixpoint find_node_by_path (current : json) (path : list string) : option json :=
  match path with
  | [] => Some current
  | key :: rest =>
      match current with
      | JObj f =>
          match dget f "children" with
          | None => Some JNull
          | Some ch =>
              match py_iter ch with
              | None => None
              | Some l =>
                  match find (named key) l with
                  | Some c => find_node_by_path c rest
                  | None => Some JNull
                  end
              end
          end
      | _ => Some JNull
      end
  end.

(** [x.get('class') == c] for a dict [x]. *)
Definition class_is (c : string) (x : json) : bool :=
  match x with
  | JObj f => match dget f "class" with Some v => is_str c v | None => false end
  | _ => false
  end.

(** Option used as an exception monad. *)
Definition obind {A B : Type} (m : option A) (f : A -> option B) : option B :=
  match m with Some a => f a | None => None end.

Notation "'let*' x := m 'in' k" := (obind m (fun x => k))
  (at level 200, x name, m at level 100, k at level 200).

(** ** Python's [int(x)] on a JSON value: [None] when it raises
    ([ValueError] on a malformed string, [TypeError] on [None], a list or a
    dict).  Strings are ASCII: surrounding whitespace, one optional sign,
    decimal digits with single underscores between them. *)
Definition is_space (c : ascii) : bool :=
  let n := nat_of_ascii c in (n =? 32)%nat || ((9 <=? n)%nat && (n <=? 13)%nat).

Fixpoint drop_spaces (l : list ascii) : list ascii :=
  match l with
  | c :: t => if is_space c then drop_spaces t else l
  | [] => []
  end.

Definition strip (l : list ascii) : list ascii := rev (drop_spaces (rev (drop_spaces l))).

Definition digit_val (c : ascii) : option Z :=
  let n := nat_of_ascii c in
  if ((48 <=? n)%nat && (n <=? 57)%nat) then Some (Z.of_nat (n - 48)) else None.

Fixpoint digits_us (l : list ascii) (acc : Z) (prev_digit : bool) : option Z :=
  match l with
  | [] => if prev_digit then Some acc else None
  | c :: t =>
      match digit_val c with
      | Some d => digits_us t (acc * 10 + d)%Z true
      | None => if Ascii.eqb c "_"%char && prev_digit then digits_us t acc false else None
      end
  end.

Definition parse_int_str (s : string) : option Z :=
  match strip (list_ascii_of_string s) with
  | c :: t =>
      if Ascii.eqb c "-"%char then option_map Z.opp (digits_us t 0 false)
      else if Ascii.eqb c "+"%char then digits_us t 0 false
      else digits_us (c :: t) 0 false
  | [] => None
  end.

Definition py_int (j : json) : option Z :=
  match j with
  | JInt z => Some z
  | JBool b => Some (if b then 1%Z else 0%Z)
  | JFloat q => Some (Z.quot (Qnum q) (Zpos (Qden q)))
  | JStr s => parse_int_str s
  | _ => None
  end.

(** ** Timeline records *)
Record keyframe := { time_offset : json; kf_value : json }.

(** [animated_params] is a dict: an association list in insertion order. *)
Record effect := { eff_name : json; animated_params : list (json * list keyframe) }.

Record event := {
  event_number : Z;
  ev_type : string;
  ev_name : json;
  start_time_frames : Z;
  duration_frames : Z;
  source_in_tc : json;
  effects : list effect }.

(** Dict keys: JSON lists and dicts are unhashable; numbers compare by value
    ([True == 1 == 1.0]). *)
Definition py_num (j : json) : option Q :=
  match j with
  | JBool b => Some (if b then 1 else 0)%Q
  | JInt z => Some (inject_Z z)
  | JFloat q => Some q
  | _ => None
  end.

Definition hashable (j : json) : bool :=
  match j with JArr _ | JObj _ => false | _ => true end.

Definition key_eq (a b : json) : bool :=
  match py_num a, py_num b with
  | Some x, Some y => Qeq_bool x y
  | _, _ =>
      match a, b with
      | JNull, JNull => true
      | JStr s, JStr t => String.eqb s t
      | _, _ => false
      end
  end.

(** [d[k] = v]: an existing key keeps its place. *)
Fixpoint dict_set {V : Type} (d : list (json * V)) (k : json) (v : V) : list (json * V) :=
  match d with
  | [] => [(k, v)]
  | (k', v') :: t => if key_eq k' k then (k', v) :: t else (k', v') :: dict_set t k v
  end.

(** ** [parse_keyframes(varying_value_node)] *)
Definition control_point (node : json) : option (option keyframe) :=
  if is_dict node && class_is "ControlPoint" node then
    let* time := value_of node "Time" in
    let* value := value_of node "Value" in
    match time, value with
    | JNull, _ | _, JNull => Some None
    | _, _ => Some (Some {| time_offset := time; kf_value := value |})
    end
  else Some None.

Fixpoint collect_keyframes (l : list json) : option (list keyframe) :=
  match l with
  | [] => Some []
  | node :: t =>
      let* k := control_point node in
      let* ks := collect_keyframes t in
      Some (match k with Some kf => kf :: ks | None => ks end)
  end.

Definition parse_keyframes (varying_value_node : json) : option (list keyframe) :=
  let* points_to_check := py_get_default varying_value_node "children" (JArr []) in
  let* cp_wrapper := get_child_property varying_value_node "ControlPoints" None in
  let* points_to_check :=
    (if truthy cp_wrapper then py_get_default cp_wrapper "children" (JArr [])
     else Some points_to_check) in
  let* l := py_iter points_to_check in
  collect_keyframes l.

(** ** [parse_effect(effect_node)] *)
Fixpoint collect_params (l : list json) (acc : list (json * list keyframe))
    : option (list (json * list keyframe)) :=
  match l with
  | [] => Some acc
  | param_node :: t =>
      if is_dict param_node && class_is "VaryingValue" param_node then
        let* param_name := py_get_default param_node "name" (JStr "Unknown Parameter") in
        let* keyframes := parse_keyframes param_node in
        match keyframes with
        | [] => collect_params t acc
        | _ => if hashable param_name
               then collect_params t (dict_set acc param_name keyframes)
               else None
        end
      else collect_params t acc
  end.

Definition parse_effect (effect_node : json) : option effect :=
  let* nm := py_get_default effect_node "name" (JStr "Unknown Effect") in
  let* params_list_node := get_child_property effect_node "Parameters" None in
  let* c := children_of params_list_node in
  match c with
  | None => Some {| eff_name := nm; animated_params := [] |}
  | Some ch =>
      let* l := py_iter ch in
      let* ps := collect_params l [] in
      Some {| eff_name := nm; animated_params := ps |}
  end.

(** ** [parse_components(components_node)] *)

(** [timeline[-1]['effects'].append(effect)] *)
Fixpoint map_last {A : Type} (f : A -> A) (l : list A) : list A :=
  match l with
  | [] => []
  | [x] => [f x]
  | x :: t => x :: map_last f t
  end.

Definition add_effect (e : effect) (ev : event) : event :=
  {| event_number := event_number ev; ev_type := ev_type ev; ev_name := ev_name ev;
     start_time_frames := start_time_frames ev; duration_frames := duration_frames ev;
     source_in_tc := source_in_tc ev; effects := (effects ev ++ [e])%list |}.

(** [x['children'][0]] *)
Definition first_item (j : json) : option json :=
  match j with
  | JArr (x :: _) => Some x
  | JStr (String c _) => Some (JStr (String c EmptyString))
  | _ => None
  end.

(** The [clip_name] resolution through the ["Source Mob Ref"] node. *)
Definition clip_name_of (source_mob_ref_node : json) : option json :=
  let* c := children_of source_mob_ref_node in
  match c with
  | None => Some (JStr "Unknown Clip")
  | Some ch =>
      if truthy ch then
        let* actual_mob_node := first_item ch in
        py_get_default actual_mob_node "name" (JStr "Unknown Clip")
      else Some (JStr "Unknown Clip")
  end.

(** [int(x or 0)] *)
Definition int_or_0 (x : json) : option Z := py_int (if truthy x then x else JInt 0).

(** One iteration of the loop over [components_node['children']], on the
    state [(timeline, current_time_frames)]. *)
Definition pc_step (st : list event * Z) (component : json) : option (list event * Z) :=
  let (timeline, current_time_frames) := st in
  if negb (is_dict component) then Some st
  else if class_is "SourceClip" component then
    let* len := value_of component "Length" in
    let* duration := int_or_0 len in
    let* stc := value_of component "StartTime" in
    let* source_mob_ref_node := get_child_property component "Source Mob Ref" None in
    let* clip_name := clip_name_of source_mob_ref_node in
    let clip_event :=
      {| event_number := Z.of_nat (length timeline) + 1; ev_type := "Clip";
         ev_name := clip_name; start_time_frames := current_time_frames;
         duration_frames := duration; source_in_tc := stc; effects := [] |} in
    Some ((timeline ++ [clip_event])%list, (current_time_frames + duration)%Z)
  else if class_is "OperationGroup" component then
    match timeline with
    | [] => Some st
    | _ =>
        let* eff := parse_effect component in
        match animated_params eff with
        | [] => Some st
        | _ => Some (map_last (add_effect eff) timeline, current_time_frames)
        end
    end
  else Some st.

Fixpoint pc_loop (l : list json) (st : list event * Z) : option (list event * Z) :=
  match l with
  | [] => Some st
  | c :: t => let* st' := pc_step st c in pc_loop t st'
  end.

Definition parse_components (components_node : json) : option (list event) :=
  let* c := children_of components_node in
  match c with
  | None => Some []
  | Some ch =>
      let* l := py_iter ch in
      let* st := pc_loop l ([], 0%Z) in
      Some (fst st)
  end.

(** ** [find_components_recursively(node)]: the recursion goes through
    [node['children']], so it is bounded by the nesting depth of [node]. *)
Fixpoint jdepth (j : json) : nat :=
  match j with
  | JArr l => S (list_max (map jdepth l))
  | JObj f => S (list_max (map (fun kv => jdepth (snd kv)) f))
  | _ => O
  end.

Definition has_key (k : string) (j : json) : bool :=
  match j with
  | JObj f => match dget f k with Some _ => true | None => false end
  | _ => false
  end.

Fixpoint fcr (fuel : nat) (node : json) : option json :=
  match fuel with
  | O => Some JNull
  | S n =>
      if named "Components" node && has_key "children" node then Some node
      else match node with
           | JObj f =>
               match dget f "children" with
               | None => Some JNull
               | Some ch =>
                   let* l := py_iter ch in
                   (fix first_hit (l : list json) : option json :=
                      match l with
                      | [] => Some JNull
                      | child :: t =>
                          let* result := fcr n child in
                          if truthy result then Some result else first_hit t
                      end) l
               end
           | _ => Some JNull
           end
  end.

Definition find_components_recursively (node : json) : option json :=
  fcr (jdepth node + 1) node.

(** ** [parse_composition_mob(comp_mob_node)]: [Some None] is Python [None]. *)
Fixpoint scan_slots (slots : list json) : option (option (list event)) :=
  match slots with
  | [] => Some None
  | slot :: t =>
      let* components_node := find_components_recursively slot in
      if truthy components_node then
        let* timeline := parse_components components_node in
        match timeline with
        | [] => scan_slots t
        | _ => Some (Some timeline)
        end
      else scan_slots t
  end.

Definition parse_composition_mob (comp_mob_node : json) : option (option (list event)) :=
  let* slots_node := get_child_property comp_mob_node "Slots" None in
  let* c := children_of slots_node in
  match c with
  | None => Some None
  | Some ch => let* l := py_iter ch in scan_slots l
  end.

(** ** [main(json_path)], after the file has been loaded into [data]. *)
Inductive main_result :=
| NoMobsList            (* "Could not find the 'Mobs' list ..." *)
| NoCompositionMob      (* "Could not find any 'CompositionMob' ..." *)
| NoTimeline            (* "Found Composition Mobs, but failed to parse ..." *)
| Timeline (tl : list event).

Definition path_to_mobs : list string := ["Header"; "Header"; "Content"; "ContentStorage"; "Mobs"].

Definition is_good_parse (tl : list event) : bool :=
  (1 <? length tl)%nat ||
  ((length tl =? 1)%nat &&
   match tl with ev :: _ => negb (is_str "Unknown Clip" (ev_name ev)) | [] => false end).

(** The body of the [for comp_mob in all_comp_mobs] loop, once
    [parsed_timeline] is known. *)
Definition choose (best : option (list event)) (parsed : option (list event))
    : option (list event) :=
  match parsed with
  | Some ((_ :: _) as tl) =>
      if is_good_parse tl then
        match best with
        | None => Some tl
        | Some b => if (length b <? length tl)%nat then Some tl else best
        end
      else best
  | _ => best
  end.

Fixpoint main_loop (comps : list json) (best : option (list event))
    : option (option (list event)) :=
  match comps with
  | [] => Some best
  | m :: t => let* parsed := parse_composition_mob m in main_loop t (choose best parsed)
  end.

Definition main (data : json) : option main_result :=
  let* mobs_node := find_node_by_path data path_to_mobs in
  let* c := children_of mobs_node in
  match c with
  | None => Some NoMobsList
  | Some ch =>
      let* all_mobs := py_iter ch in
      let all_comp_mobs := filter (fun m => is_dict m && class_is "CompositionMob" m) all_mobs in
      match all_comp_mobs with
      | [] => Some NoCompositionMob
      | _ =>
          let* best := main_loop all_comp_mobs None in
          match best with
          | Some ((_ :: _) as tl) => Some (Timeline tl)
          | _ => Some NoTimeline
          end
      end
  end.

End ParseAAF.

(** * The aaf2 object graph, the lazy tree and the JSON projections *)
Module Inspector.

Import ParseAAF.
Open Scope string_scope.

(** [getattr(obj, 'name', ...)] on an object: no such attribute, [None], or
    a string. *)
Inductive oname := NoName | NullName | Named (s : string).

(** Scalar property values, with the string forms the serializer uses for
    the non-primitive ones ([isoformat()], [str(uuid)], [repr(bytes)],
    [str(x)]). *)
Inductive pval :=
| PNone | PBool (b : bool) | PInt (z : Z) | PStr (s : string)
| PTimestamp (iso : string) | PUUID (s : string) | PBytes (repr : string)
| POther (str : string).

(** The graph source as a tagged variant.  An object carries its class tag,
    its [name] attribute, its properties in source order, and, when it
    exposes [mob] and [slot] attributes (source clips do), their values.
    Set entries are (key, object) pairs; their keys are mutually comparable
    (mob ids and integers in aaf2). *)
Inductive gnode :=
| GObject (cls : string) (name : oname) (props : list gnode)
          (refs : option (option gnode * option gnode))
| GScalar (pname : string) (v : pval)
| GSingle (pname : string) (target : option gnode)
| GVector (pname : string) (items : list gnode)
| GSet (pname : string) (entries : list (Z * gnode)).

(** [prop.name] of a property ([""] for an object, never asked). *)
Definition pname_of (g : gnode) : string :=
  match g with
  | GObject _ _ _ _ => ""
  | GScalar n _ | GSingle n _ | GVector n _ | GSet n _ => n
  end.

(** The class tag.  For an object it stands both for the name of its class
    definition (what [TreeItem.class_name] reads) and for its Python class
    name (what [build_node] writes and [isinstance] tests), which aaf2 keeps
    equal for the classes it defines.  For a property it is the Python class
    name; a scalar property stands for a plain aaf2 [Property]. *)
Definition gclass (g : gnode) : string :=
  match g with
  | GObject c _ _ _ => c
  | GScalar _ _ => "Property"
  | GSingle _ _ => "StrongRefProperty"
  | GVector _ _ => "StrongRefVectorProperty"
  | GSet _ _ => "StrongRefSetProperty"
  end.

Definition serialize (v : pval) : json :=
  match v with
  | PNone => JNull
  | PBool b => JBool b
  | PInt z => JInt z
  | PStr s => JStr s
  | PTimestamp s | PUUID s | PBytes s | POther s => JStr s
  end.

(** ** Python's stable [sorted(..., key=...)] as an insertion sort. *)
Fixpoint insert_by {A : Type} (key : A -> string) (x : A) (l : list A) : list A :=
  match l with
  | [] => [x]
  | y :: t => if String.leb (key y) (key x) then y :: insert_by key x t else x :: l
  end.

Definition sort_by {A : Type} (key : A -> string) (l : list A) : list A :=
  fold_left (fun acc x => insert_by key x acc) l [].

Fixpoint insert_Z (x : Z) (l : list Z) : list Z :=
  match l with
  | [] => [x]
  | y :: t => if (y <=? x)%Z then y :: insert_Z x t else x :: l
  end.

Definition sort_Z (l : list Z) : list Z := fold_left (fun acc x => insert_Z x acc) l [].

(** ASCII [str.lower()]. *)
Definition lower_char (c : ascii) : ascii :=
  let n := nat_of_ascii c in
  if ((65 <=? n)%nat && (n <=? 90)%nat) then ascii_of_nat (n + 32) else c.

Fixpoint lower (s : string) : string :=
  match s with
  | EmptyString => EmptyString
  | String c t => String (lower_char c) (lower t)
  end.

(** ** [TreeItem]

    The wrapped Python object: a plain list (the root), a graph node, a
    [DummyItem(label, target)], or [None]. *)
Inductive item := IList (l : list gnode) | IG (g : gnode) | IDummy (label : string) (target : gnode) | INone.

(** The two inspector versions differ in how [setup] finds source clips and
    in the export filter. *)
Inductive version := Original | Enhanced.

(** [TreeItem.class_name()] *)
Definition class_name (it : item) : string :=
  match it with
  | IList _ => "list"
  | IG g => gclass g
  | IDummy _ t => gclass t
  | INone => "NoneType"
  end.

(** [TreeItem.name()] *)
Definition name (it : item) : string :=
  match it with
  | IDummy label _ => label
  | IG (GObject c (Named s) _ _) => if String.eqb s "" then c else s
  | IG (GObject c _ _ _) => c
  | IG g => if String.eqb (pname_of g) "" then gclass g else pname_of g
  | _ => class_name it
  end.

Definition backref_gate (v : version) (cls : string) : bool :=
  match v with Original => String.eqb cls "SourceClip" | Enhanced => true end.

(** The synthetic back-reference children appended by [setup]: the original
    version only for [SourceClip] objects, the enhanced one for every item
    with [mob] and [slot] attributes. *)
Definition backref_items (v : version) (cls : string)
    (refs : option (option gnode * option gnode)) : list item :=
  if backref_gate v cls then
    match refs with
    | Some (m, s) =>
        ((match m with Some t => [IDummy "Source Mob Ref" t] | None => [] end) ++
         (match s with Some t => [IDummy "Source Slot Ref" t] | None => [] end))%list
    | None => []
    end
  else [].

(** The children [setup] creates eagerly through [extend], in row order. *)
Definition extended (v : version) (it : item) : list item :=
  match it with
  | IDummy _ t => [IG t]
  | IList l => map IG l
  | IG (GObject c _ props refs) => (map IG (sort_by pname_of props) ++ backref_items v c refs)%list
  | IG (GSingle _ (Some t)) => [IG t]
  | _ => []
  end.

(** [children_count] after [setup]. *)
Definition child_count (v : version) (it : item) : nat :=
  match it with
  | IG (GVector _ items) => length items
  | IG (GSet _ entries) => length entries
  | _ => length (extended v it)
  end.

(** [self.references] of a set property: its keys, sorted. *)
Definition references (it : item) : list Z :=
  match it with
  | IG (GSet _ entries) => sort_Z (map fst entries)
  | _ => []
  end.

(** Python [l[i]] on a list, negative indices counting from the end. *)
Definition py_index {A : Type} (l : list A) (i : Z) : option A :=
  let n := Z.of_nat (length l) in
  if (0 <=? i)%Z && (i <? n)%Z then nth_error l (Z.to_nat i)
  else if (- n <=? i)%Z && (i <? 0)%Z then nth_error l (Z.to_nat (n + i))
  else None.

Fixpoint lookup_key {A : Type} (k : Z) (l : list (Z * A)) : option A :=
  match l with
  | [] => None
  | (k', a) :: t => if (k' =? k)%Z then Some a else lookup_key k t
  end.

(** The outcome of [TreeItem.child(row)]: [None], a [TreeItem(item, self,
    index)], or an exception.  The row cache only makes repeated calls
    return the same object; it does not change what is returned. *)
Inductive child_result := NoChild | Child (it : item) (index : Z) | ChildRaises.

Definition child (v : version) (it : item) (row : Z) : child_result :=
  let ext := extended v it in
  if (0 <=? row)%Z && (row <? Z.of_nat (length ext))%Z then
    match nth_error ext (Z.to_nat row) with Some c => Child c row | None => NoChild end
  else
    match it with
    | IG (GSet _ entries) =>
        if (row <? Z.of_nat (length (references it)))%Z then
          match py_index (references it) row with
          | Some key =>
              match lookup_key key entries with
              | Some g => Child (IG g) row
              | None => Child INone row
              end
          | None => ChildRaises
          end
        else NoChild
    | IG (GVector _ items) =>
        if (0 <=? row)%Z && (row <? Z.of_nat (length items))%Z then
          match nth_error items (Z.to_nat row) with Some g => Child (IG g) row | None => NoChild end
        else NoChild
    | _ => NoChild
    end.

(** ** The JSON export, [_convert_node_to_dict]

    A node of the canonical document: name, class, optional ["value"],
    optional ["children"] (present only when non-empty). *)
Inductive cnode := CNode (nm : json) (cls : string) (value : option json) (children : option (list cnode)).

Definition excluded_names : list string := ["a1"; "a2"; "a3"; "a4"; "a5"; "a6"; "a7"; "a8"; "data"].

(** The export filter: the original version drops [TimelineMobSlot]s named
    A1-A8 or Data; the enhanced version has no filter. *)
Definition excluded (v : version) (nm cls : string) : bool :=
  match v with
  | Original => String.eqb cls "TimelineMobSlot" && existsb (String.eqb (lower nm)) excluded_names
  | Enhanced => false
  end.

Fixpoint filter_some {A : Type} (l : list (option A)) : list A :=
  match l with
  | [] => []
  | Some a :: t => a :: filter_some t
  | None :: t => filter_some t
  end.

Definition nonempty {A : Type} (l : list A) : option (list A) :=
  match l with [] => None | _ => Some l end.

(** One call of [_convert_node_to_dict] once the children's results [kids]
    (in row order) are known. *)
Definition mk (v : version) (it : item) (value : option json) (kids : list (option cnode)) : option cnode :=
  if excluded v (name it) (class_name it) then None
  else Some (CNode (JStr (name it)) (class_name it) value (nonempty (filter_some kids))).

Definition conv_none (v : version) : option cnode := mk v INone None [].

(** [_convert_node_to_dict(TreeItem(g))]: the children are visited in row
    order, i.e. in the order of [extended] for objects and single
    references, of the items for vectors, and of the sorted keys for sets. *)
Fixpoint conv_g (v : version) (g : gnode) {struct g} : option cnode :=
  match g with
  | GObject c _ props refs =>
      let results := map (fun p => (pname_of p, conv_g v p)) props in
      let back :=
        if backref_gate v c then
          match refs with
          | Some (m, s) =>
              ((match m with Some t => [mk v (IDummy "Source Mob Ref" t) None [conv_g v t]] | None => [] end) ++
               (match s with Some t => [mk v (IDummy "Source Slot Ref" t) None [conv_g v t]] | None => [] end))%list
          | None => []
          end
        else [] in
      mk v (IG g) None (map snd (sort_by fst results) ++ back)%list
  | GScalar _ pv => mk v (IG g) (Some (serialize pv)) []
  | GSingle _ (Some t) => mk v (IG g) None [conv_g v t]
  | GSingle _ None => mk v (IG g) None []
  | GVector _ items => mk v (IG g) None (map (conv_g v) items)
  | GSet _ entries =>
      let results := map (fun '(k, x) => (k, conv_g v x)) entries in
      mk v (IG g) None
        (map (fun k => match lookup_key k results with Some r => r | None => conv_none v end)
             (sort_Z (map fst entries)))
  end.

Definition convert_node_to_dict (v : version) (it : item) : option cnode :=
  match it with
  | IG g => conv_g v g
  | IDummy _ t => mk v it None [conv_g v t]
  | IList l => mk v it None (map (conv_g v) l)
  | INone => conv_none v
  end.

(** ** [Worker.build_node(item, name)] of the batch converter; [None] when
    it raises. *)
Definition excluded_track_names : list string :=
  ["a1"; "a2"; "a3"; "a4"; "a5"; "a6"; "a7"; "a8"; "data track"].

(** [getattr(slot, 'name', '')], before [.lower()] ([None] has no [lower]). *)
Definition slot_attr_name (g : gnode) : option string :=
  match g with
  | GObject _ NoName _ _ => Some ""
  | GObject _ NullName _ _ => None
  | GObject _ (Named s) _ _ => Some s
  | _ => Some (pname_of g)
  end.

(** [slot.name] *)
Definition slot_name (g : gnode) : option json :=
  match g with
  | GObject _ NoName _ _ => None
  | GObject _ NullName _ _ => Some JNull
  | GObject _ (Named s) _ _ => Some (JStr s)
  | _ => Some (JStr (pname_of g))
  end.

(** [getattr(child_item, 'name', child_item.__class__.__name__)] *)
Definition child_name (g : gnode) : json :=
  match g with
  | GObject c NoName _ _ => JStr c
  | GObject _ NullName _ _ => JNull
  | GObject _ (Named s) _ _ => JStr s
  | _ => JStr (pname_of g)
  end.

Definition keep_slot (sn : string) : bool :=
  negb (existsb (String.eqb (lower sn)) excluded_track_names).

(** One slot of a CompositionMob's Slots, given [bld = build_node slot]. *)
Definition slot_child (slot : gnode) (bld : json -> option cnode) : option (list cnode) :=
  let* sn := slot_attr_name slot in
  if keep_slot sn then
    let* n := slot_name slot in
    let* cn := bld n in
    Some [cn]
  else Some [].

(** [[f(x) for x in l]] where [f] may raise. *)
Fixpoint traverse {A B : Type} (f : A -> option B) (l : list A) : option (list B) :=
  match l with
  | [] => Some []
  | x :: t => let* b := f x in let* r := traverse f t in Some (b :: r)
  end.

Fixpoint build_node (g : gnode) (nm : json) {struct g} : option cnode :=
  match g with
  | GObject c _ props _ =>
      let is_comp_mob := String.eqb c "CompositionMob" in
      let* children :=
        traverse (fun p =>
          if is_comp_mob && String.eqb (pname_of p) "Slots" then
            (* [for slot in prop.value]: iterating a non-collection raises *)
            match p with
            | GVector _ slots =>
                let* kept := traverse (fun slot => slot_child slot (build_node slot)) slots in
                Some (concat kept)
            | GSet _ entries =>
                let* kept := traverse (fun '(_, slot) => slot_child slot (build_node slot)) entries in
                Some (concat kept)
            | _ => None
            end
          else let* cn := build_node p (JStr (pname_of p)) in Some [cn]) props in
      Some (CNode nm c None (nonempty (concat children)))
  | GVector _ items =>
      let* children := traverse (fun x => build_node x (child_name x)) items in
      Some (CNode nm "StrongRefVectorProperty" None (nonempty children))
  | GSet _ entries =>
      let* children := traverse (fun '(_, x) => build_node x (child_name x)) entries in
      Some (CNode nm "StrongRefSetProperty" None (nonempty children))
  | GSingle _ (Some t) =>
      let* cn := build_node t (child_name t) in
      Some (CNode nm "StrongRefProperty" None (Some [cn]))
  | GSingle _ None => Some (CNode nm "StrongRefProperty" None None)
  | GScalar _ pv => Some (CNode nm "Property" (Some (serialize pv)) None)
  end.

Definition batch_document (header : gnode) : option cnode :=
  let* content_node := build_node header (JStr "Header") in
  Some (CNode (JStr "Root") "Root" None (Some [content_node])).

End Inspector.

(** * The batch [Worker] *)
Module Batch.

Open Scope string_scope.

(** Signals emitted by a run, in order. *)
Inductive signal :=
| Processing (i total : nat) (path : string)   (* "Processing file i of total: ..." *)
| Saved (path : string)                        (* "-> Successfully saved to ..." *)
| FileError (path : string)                    (* "-> ERROR converting ..." *)
| Cancelled                                    (* "Process cancelled." *)
| Complete                                     (* "Batch conversion complete." *)
| WorkerError                                  (* [error.emit(...)] *)
| Finished.                                    (* [finished.emit()] *)

(** [is_running] is [None] while the attribute does not exist: reading it
    then raises [AttributeError]. *)
Record worker := { file_list : list string; is_running : option bool }.

(** [Worker.__init__] *)
Definition init_worker (files : list string) : worker :=
  {| file_list := files; is_running := None |}.

(** [Worker.stop] *)
Definition stop (w : worker) : worker :=
  {| file_list := file_list w; is_running := Some false |}.

(** [_process_file]: every exception of open, build and write is caught
    inside it; [converts path] says whether that file converts. *)
Definition process_file (converts : string -> bool) (path : string) : signal :=
  if converts path then Saved path else FileError path.

(** The [for] loop of [run]: the signals emitted and whether it raised. *)
Fixpoint run_loop (running : option bool) (converts : string -> bool)
    (i total : nat) (files : list string) : list signal * bool :=
  match files with
  | [] => ([], false)
  | path :: t =>
      match running with
      | None => ([], true)
      | Some false => ([Cancelled], false)
      | Some true =>
          let (rest, raised) := run_loop running converts (S i) total t in
          (Processing (S i) total path :: process_file converts path :: rest, raised)
      end
  end.

(** [Worker.run] *)
Definition run (w : worker) (converts : string -> bool) : list signal :=
  let files := file_list w in
  let (sigs, raised) := run_loop (is_running w) converts 0 (length files) files in
  if raised then sigs ++ [WorkerError; Finished]
  else match is_running w with
       | None => sigs ++ [WorkerError; Finished]
       | Some true => sigs ++ [Complete; Finished]
       | Some false => sigs ++ [Finished]
       end.

(** The per-file outcomes of a run. *)
Definition outcome (s : signal) : bool :=
  match s with Saved _ | FileError _ => true | _ => false end.

End Batch.

(** * Find Next / Find Previous of the enhanced inspector

    [Window.find_next], [Window.find_previous], [_perform_search] and
    [_navigate_results].  The search over the Qt model is a function:
    [search t] is the list of indexes [_search_recursive] collects from the
    root for the lower-cased term [t] (empty when no model is loaded). *)
Module Search.

Import Inspector.
Open Scope string_scope.

Section Search.
Context {R : Type}.
Variable search : string -> list R.

Record window := {
  last_search_term : string;
  search_results : list R;
  current_search_index : Z }.

(** [Window.__init__] *)
Definition init : window :=
  {| last_search_term := ""; search_results := []; current_search_index := -1 |}.

(** [_perform_search(search_term)] *)
Definition perform_search (search_term : string) : window :=
  {| last_search_term := search_term; search_results := search (lower search_term);
     current_search_index := -1 |}.

(** What a call shows: nothing, the result at the current index, or
    [IndexError] from [self.search_results[self.current_search_index]]. *)
Inductive nav := NoNav | NavTo (r : R) | NavRaises.

(** [_navigate_results] *)
Definition navigate (w : window) : nav :=
  match search_results w with
  | [] => NoNav
  | l => match py_index l (current_search_index w) with Some r => NavTo r | None => NavRaises end
  end.

Definition set_index (w : window) (i : Z) : window :=
  {| last_search_term := last_search_term w; search_results := search_results w;
     current_search_index := i |}.

(** The common prefix of [find_next] and [find_previous]. *)
Definition refresh (search_term : string) (w : window) : window :=
  if negb (String.eqb (lower search_term) (last_search_term w)) then perform_search search_term
  else w.

Definition find_next (search_term : string) (w : window) : window * nav :=
  if String.eqb search_term "" then (w, NoNav) else
  let w1 := refresh search_term w in
  match search_results w1 with
  | [] => (w1, NoNav)
  | l =>
      let i := (current_search_index w1 + 1)%Z in
      let i := if (Z.of_nat (length l) <=? i)%Z then 0%Z else i in
      let w2 := set_index w1 i in
      (w2, navigate w2)
  end.

Definition find_previous (search_term : string) (w : window) : window * nav :=
  if String.eqb search_term "" then (w, NoNav) else
  let w1 := refresh search_term w in
  match search_results w1 with
  | [] => (w1, NoNav)
  | l =>
      let i := (current_search_index w1 - 1)%Z in
      let i := if (i <? 0)%Z then (Z.of_nat (length l) - 1)%Z else i in
      let w2 := set_index w1 i in
      (w2, navigate w2)
  end.

End Search.

Arguments window : clear implicits.
Arguments nav : clear implicits.

End Search.

(** * Concrete inputs *)
Module Samples.

Import ParseAAF Inspector.
Open Scope string_scope.

(** Nodes of the canonical document, as the projection writes them. *)
Definition jnode (n c : string) (ch : list json) : json :=
  JObj [("name", JStr n); ("class", JStr c); ("children", JArr ch)].

Definition jleaf (n c : string) (v : json) : json :=
  JObj [("name", JStr n); ("class", JStr c); ("value", v)].

(** A SourceClip with its Length, StartTime and "Source Mob Ref" wrapper. *)
Definition clip (len : json) (mob : string) : json :=
  jnode "SourceClip" "SourceClip"
    [jleaf "Length" "Property" len; jleaf "StartTime" "Property" (JInt 0);
     jnode "Source Mob Ref" "MasterMob" [jnode mob "MasterMob" []]].

(** A SourceClip without a resolvable source mob. *)
Definition bare_clip (len : json) : json :=
  jnode "SourceClip" "SourceClip" [jleaf "Length" "Property" len].

Definition control_pt (t v : json) : json :=
  jnode "ControlPoint" "ControlPoint" [jleaf "Time" "Property" t; jleaf "Value" "Property" v].

(** An OperationGroup animating "Opacity" from 1.0 at 0 to 0.0 at 10. *)
Definition fade : json :=
  jnode "Fade" "OperationGroup"
    [jnode "Parameters" "StrongRefVectorProperty"
       [jnode "Opacity" "VaryingValue"
          [jnode "ControlPoints" "StrongRefVectorProperty"
             [control_pt (JInt 0) (JFloat 1); control_pt (JInt 10) (JFloat 0)]]]].

Definition filler (len : Z) : json :=
  jnode "Filler" "Filler" [jleaf "Length" "Property" (JInt len)].

Definition components (l : list json) : json := jnode "Components" "StrongRefVectorProperty" l.

Definition comp_mob (n : string) (c : json) : json :=
  jnode n "CompositionMob"
    [jnode "Slots" "StrongRefVectorProperty"
       [jnode "V1" "TimelineMobSlot"
          [jnode "Segment" "StrongRefProperty" [jnode "Sequence" "Sequence" [components [c]]]]]].

(** Two compositions: one whose clip resolves to no mob, one whose clip
    resolves to the master mob "Interview". *)
Definition two_comps_doc : json :=
  jnode "Root" "Root"
    [jnode "Header" "Header"
       [jnode "Header" "ContentStorage"
          [jnode "Content" "Content"
             [jnode "ContentStorage" "ContentStorage"
                [jnode "Mobs" "StrongRefSetProperty"
                   [comp_mob "Wrapper" (bare_clip (JInt 10));
                    comp_mob "Sequence" (clip (JInt 10) "Interview")]]]]]].

(** The events those two compositions stand for. *)
Definition ev (nm : string) : event :=
  {| event_number := 1; ev_type := "Clip"; ev_name := JStr nm; start_time_frames := 0;
     duration_frames := 10; source_in_tc := JInt 0; effects := [] |}.

(** Graph nodes. *)
Definition slot (n : string) : gnode :=
  GObject "TimelineMobSlot" (Named n) [GScalar "SlotName" (PStr n)] None.

Definition master_mob : gnode :=
  GObject "MasterMob" (Named "Interview") [GScalar "Name" (PStr "Interview"); GVector "Slots" [slot "A1"]] None.

Definition comp : gnode :=
  GObject "CompositionMob" (Named "Sequence")
    [GScalar "Name" (PStr "Sequence"); GVector "Slots" [slot "A1"; slot "V1"]] None.

Definition source_clip : gnode :=
  GObject "SourceClip" NoName [GScalar "Length" (PInt 10)] (Some (Some master_mob, None)).

Definition mob_set : gnode := GSet "Mobs" [(5%Z, master_mob); (3%Z, source_clip)].

(** The batch node of the slot "V1". *)
Definition v1_node : cnode :=
  CNode (JStr "V1") "TimelineMobSlot" None
    (Some [CNode (JStr "SlotName") "Property" (Some (JStr "V1")) None]).

(** A Sequence whose properties are not in name order. *)
Definition unsorted_obj : gnode :=
  GObject "Sequence" NoName [GScalar "Length" (PInt 10); GScalar "DataDefinition" (PStr "picture")] None.

(** A search over a tree whose labels "Clip 1" to "Clip 3" are the only
    ones containing "clip". *)
Definition clip_search (lowered_term : string) : list nat :=
  if String.eqb lowered_term "clip" then [1; 2; 3]%nat else [].

End Samples.

(** * Predicates used in the statements *)
Module Props.

Import ParseAAF Inspector.
Open Scope string_scope.

(** ** Shape of a timeline: (event_number, start, duration) per event *)
Definition shape (ev : event) : Z * Z * Z :=
  (event_number ev, start_time_frames ev, duration_frames ev).

Definition sumd (s : list (Z * Z * Z)) : Z := fold_right (fun x acc => (snd x + acc)%Z) 0%Z s.

Definition sum_durations (tl : list event) : Z :=
  fold_right (fun e acc => (duration_frames e + acc)%Z) 0%Z tl.

(** Dense numbering and contiguous starts, with the cursor at the end. *)
Definition contiguous (s : list (Z * Z * Z)) (cur : Z) : Prop :=
  (forall i n st d, nth_error s i = Some (n, st, d) ->
     st = sumd (firstn i s) /\ n = (Z.of_nat i + 1)%Z) /\
  cur = sumd s.

(** A component that is neither a SourceClip nor an OperationGroup (or not
    a dict at all). *)
Definition other_component (x : json) : Prop :=
  is_dict x = false \/ (class_is "SourceClip" x = false /\ class_is "OperationGroup" x = false).

(** ** Canonical-document trees *)

(** Every node of a tree satisfies [f]. *)
Fixpoint all_nodes (f : cnode -> bool) (c : cnode) : bool :=
  match c with
  | CNode _ _ _ ch => f c && match ch with None => true | Some l => forallb (all_nodes f) l end
  end.

(** Every node of an optional tree satisfies [f] ([None]: nothing emitted). *)
Definition opt_all (f : cnode -> bool) (o : option cnode) : bool :=
  match o with Some c => all_nodes f c | None => true end.

(** A node does not carry both a ["value"] and a ["children"] key. *)
Definition value_xor_children (c : cnode) : bool :=
  match c with
  | CNode _ _ (Some _) (Some _) => false
  | _ => true
  end.

(** A [TimelineMobSlot] node whose case-folded name is in the original
    export's exclusion set. *)
Definition excl_node (c : cnode) : bool :=
  match c with
  | CNode (JStr n) cls _ _ => String.eqb cls "TimelineMobSlot" && existsb (String.eqb (lower n)) excluded_names
  | _ => false
  end.

(** Number of non-null back-references. *)
Definition count_some {A : Type} (o : option A) : nat :=
  match o with Some _ => 1 | None => 0 end.

(** The direct members of a vector or set property. *)
Definition members (g : gnode) : list gnode :=
  match g with
  | GVector _ l => l
  | GSet _ es => map snd es
  | _ => []
  end.

(** The order [sorted(..., key=k)] produces. *)
Definition key_le {A : Type} (k : A -> string) (a b : A) : Prop := String.leb (k a) (k b) = true.

(** ** Nested induction on the graph model *)

Definition on_opt (P : gnode -> Prop) (o : option gnode) : Prop :=
  match o with Some t => P t | None => True end.

Definition on_refs (P : gnode -> Prop) (refs : option (option gnode * option gnode)) : Prop :=
  match refs with Some (m, s) => on_opt P m /\ on_opt P s | None => True end.

Section GnodeInd.
Variable P : gnode -> Prop.
Hypothesis HObject : forall c n props refs,
  Forall P props -> on_refs P refs -> P (GObject c n props refs).
Hypothesis HScalar : forall n pv, P (GScalar n pv).
Hypothesis HSingle : forall n o, on_opt P o -> P (GSingle n o).
Hypothesis HVector : forall n items, Forall P items -> P (GVector n items).
Hypothesis HSet : forall n entries, Forall (fun e => P (snd e)) entries -> P (GSet n entries).

Fixpoint gnode_ind' (g : gnode) : P g :=
  let fix on_list (l : list gnode) : Forall P l :=
    match l with
    | [] => Forall_nil P
    | x :: t => Forall_cons x (gnode_ind' x) (on_list t)
    end in
  let fix on_entries (l : list (Z * gnode)) : Forall (fun e => P (snd e)) l :=
    match l with
    | [] => Forall_nil _
    | (k, x) :: t => @Forall_cons _ (fun e => P (snd e)) (k, x) t (gnode_ind' x) (on_entries t)
    end in
  let on_o (o : option gnode) : on_opt P o :=
    match o as o' return on_opt P o' with Some t => gnode_ind' t | None => I end in
  match g with
  | GObject c n props refs =>
      HObject c n props refs (on_list props)
        (match refs as r return on_refs P r with
         | Some (m, s) => conj (on_o m) (on_o s)
         | None => I
         end)
  | GScalar n pv => HScalar n pv
  | GSingle n o => HSingle n o (on_o o)
  | GVector n items => HVector n items (on_list items)
  | GSet n entries => HSet n entries (on_entries entries)
  end.

End GnodeInd.

(** ** Further properties *)

(** The children of a node, [[]] when the key is absent. *)
Definition cchildren (c : cnode) : list cnode :=
  match c with CNode _ _ _ ch => match ch with Some l => l | None => [] end end.

(** A node does not carry an empty ["children"] list. *)
Definition no_empty_children (c : cnode) : bool :=
  match c with CNode _ _ _ (Some []) => false | _ => true end.

(** The graph reaches a CompositionMob through properties (back-references
    are not followed, as [build_node] does not follow them). *)
Fixpoint has_comp_mob (g : gnode) : bool :=
  match g with
  | GObject c _ props _ => String.eqb c "CompositionMob" || existsb has_comp_mob props
  | GScalar _ _ => false
  | GSingle _ t => match t with Some t => has_comp_mob t | None => false end
  | GVector _ items => existsb has_comp_mob items
  | GSet _ entries => existsb (fun '(_, x) => has_comp_mob x) entries
  end.

(** The tree items [_convert_node_to_dict] visits below [it], in order:
    [child(i)] for [i in range(childCount())], skipping [None]. *)
Definition child_items (v : version) (it : item) : list item :=
  concat (map (fun i => match child v it (Z.of_nat i) with Child c _ => [c] | _ => [] end)
              (seq 0 (child_count v it))).

(** A slot the batch converter keeps in a CompositionMob's Slots: its
    lower-cased name is not an excluded track name (a slot whose name is
    [None] makes [.lower()] raise). *)
Definition slot_kept (slot : gnode) : bool :=
  match slot_attr_name slot with Some sn => keep_slot sn | None => false end.

(** [self.build_node(slot, slot.name)] *)
Definition build_slot (slot : gnode) : option cnode :=
  let* j := slot_name slot in build_node slot j.

(** The search index stays between -1 and the last result. *)
Definition index_ok {R : Type} (w : Search.window R) : Prop :=
  (-1 <= Search.current_search_index w < Z.of_nat (length (Search.search_results w)))%Z.

(** The first [k] presses of a button with the same term. *)
Definition presses {R : Type} (step : Search.window R -> Search.window R * Search.nav R)
    (k : nat) (w : Search.window R) : Search.window R :=
  Nat.iter k (fun w => fst (step w)) w.

End Props.

(** * Facts about the timeline reconstructor *)
Module ParseFacts.

Import ParseAAF Samples Props.
Open Scope string_scope.

Lemma sumd_app (s t : list (Z * Z * Z)) : sumd (s ++ t) = (sumd s + sumd t)%Z.
Proof. induction s as [|x s IH]; simpl; [reflexivity|]. rewrite IH. lia. Qed.

Lemma sumd_shape (tl : list event) : sumd (map shape tl) = sum_durations tl.
Proof. induction tl as [|e tl IH]; simpl; [reflexivity|]. rewrite IH. reflexivity. Qed.

Lemma contiguous_nil : contiguous [] 0%Z.
Proof.
  split; [|reflexivity].
  intros i n st d H. destruct i; discriminate.
Qed.

Lemma contiguous_snoc (s : list (Z * Z * Z)) (cur d : Z) :
  contiguous s cur ->
  contiguous (s ++ [(Z.of_nat (length s) + 1, cur, d)]%Z) (cur + d)%Z.
Proof.
  intros [Hs Hc]. split.
  - intros i n st d' H.
    destruct (Nat.lt_ge_cases i (length s)) as [Hlt|Hge].
    + rewrite nth_error_app1 in H by exact Hlt.
      rewrite firstn_app, (proj2 (Nat.sub_0_le i (length s))) by lia.
      rewrite firstn_O, app_nil_r.
      exact (Hs i n st d' H).
    + rewrite nth_error_app2 in H by exact Hge.
      destruct (i - length s)%nat as [|k] eqn:Hk.
      * simpl in H. injection H as <- <- <-.
        assert (i = length s) as -> by lia.
        rewrite firstn_app, Nat.sub_diag, firstn_O, app_nil_r, firstn_all.
        split; [exact Hc | reflexivity].
      * destruct k; discriminate.
  - rewrite sumd_app, Hc. simpl. lia.
Qed.

(** [timeline[-1]['effects'].append(...)] leaves every shape unchanged. *)
Lemma map_last_map {A B : Type} (f : A -> A) (h : A -> B) (l : list A) :
  (forall x, h (f x) = h x) -> map h (map_last f l) = map h l.
Proof.
  intros Hf. induction l as [|x l IH]; [reflexivity|].
  destruct l as [|y l]; simpl.
  - rewrite Hf. reflexivity.
  - simpl in IH. rewrite IH. reflexivity.
Qed.

Lemma map_last_length {A : Type} (f : A -> A) (l : list A) :
  length (map_last f l) = length l.
Proof.
  rewrite <- (length_map (fun _ => tt)), map_last_map by reflexivity.
  apply length_map.
Qed.

(** The step of the loop keeps the timeline contiguous. *)
Lemma pc_step_contiguous (tl : list event) (cur : Z) (c : json) tl' cur' :
  contiguous (map shape tl) cur ->
  pc_step (tl, cur) c = Some (tl', cur') ->
  contiguous (map shape tl') cur'.
Proof.
  intros Hinv Hstep. unfold pc_step in Hstep.
  destruct (negb (is_dict c)).
  { injection Hstep as <- <-. exact Hinv. }
  destruct (class_is "SourceClip" c).
  - unfold obind in Hstep.
    destruct (value_of c "Length") as [len|]; [|discriminate].
    destruct (int_or_0 len) as [d|]; [|discriminate].
    destruct (value_of c "StartTime") as [stc|]; [|discriminate].
    destruct (get_child_property c "Source Mob Ref" None) as [smr|]; [|discriminate].
    destruct (clip_name_of smr) as [nm|]; [|discriminate].
    injection Hstep as <- <-.
    rewrite map_app. simpl.
    unfold shape at 2. simpl.
    rewrite <- (length_map shape tl).
    apply contiguous_snoc. exact Hinv.
  - destruct (class_is "OperationGroup" c).
    + destruct tl as [|e0 tl0] eqn:Etl.
      * injection Hstep as <- <-. exact Hinv.
      * rewrite <- Etl in *. unfold obind in Hstep.
        destruct (parse_effect c) as [eff|]; [|discriminate].
        destruct (animated_params eff).
        -- injection Hstep as <- <-. exact Hinv.
        -- injection Hstep as <- <-.
           rewrite map_last_map by reflexivity. exact Hinv.
    + injection Hstep as <- <-. exact Hinv.
Qed.

Lemma pc_loop_contiguous (l : list json) (tl : list event) (cur : Z) tl' cur' :
  contiguous (map shape tl) cur ->
  pc_loop l (tl, cur) = Some (tl', cur') ->
  contiguous (map shape tl') cur'.
Proof.
  revert tl cur. induction l as [|c l IH]; intros tl cur Hinv H; cbn [pc_loop] in H.
  - injection H as <- <-. exact Hinv.
  - unfold obind in H.
    destruct (pc_step (tl, cur) c) as [[tl1 cur1]|] eqn:Hs; [|discriminate].
    exact (IH tl1 cur1 (pc_step_contiguous tl cur c tl1 cur1 Hinv Hs) H).
Qed.

Lemma firstn_map_shape (i : nat) (tl : list event) :
  sumd (firstn i (map shape tl)) = sum_durations (firstn i tl).
Proof. rewrite firstn_map. apply sumd_shape. Qed.

(** ** C4 *)

(** C4: in every timeline [parse_components] produces, event [i] (0-based)
    starts at the sum of the durations of events [0..i-1] and is numbered
    [i+1]. *)
Theorem parse_components_contiguous (components_node : json) (tl : list event) :
  parse_components components_node = Some tl ->
  forall i ev, nth_error tl i = Some ev ->
    start_time_frames ev = sum_durations (firstn i tl) /\
    event_number ev = (Z.of_nat i + 1)%Z.
Proof.
  intros H i e Hi. unfold parse_components, obind in H.
  destruct (children_of components_node) as [[ch|]|]; [|injection H as <-; destruct i; discriminate|discriminate].
  destruct (py_iter ch) as [l|]; [|discriminate].
  destruct (pc_loop l ([], 0%Z)) as [[tl' cur]|] eqn:Hl; [|discriminate].
  injection H as <-. simpl.
  destruct (pc_loop_contiguous l [] 0 tl' cur contiguous_nil Hl) as [Hs _].
  assert (Hn : nth_error (map shape tl') i = Some (shape e)) by (rewrite nth_error_map, Hi; reflexivity).
  destruct (Hs i _ _ _ Hn) as [H1 H2].
  rewrite firstn_map_shape in H1. split; assumption.
Qed.

(** A clip of 100 frames, an effect, a clip of 50 frames written ["50"]. *)
Lemma parse_components_contiguous_witness :
  parse_components (components [clip (JInt 100) "A"; fade; clip (JStr "50") "B"]) =
    Some [ {| event_number := 1; ev_type := "Clip"; ev_name := JStr "Unknown Clip";
              start_time_frames := 0; duration_frames := 100; source_in_tc := JInt 0; effects := [] |};
           {| event_number := 2; ev_type := "Clip"; ev_name := JStr "Unknown Clip";
              start_time_frames := 100; duration_frames := 50; source_in_tc := JInt 0; effects := [] |} ] /\
  start_time_frames
    {| event_number := 2; ev_type := "Clip"; ev_name := JStr "Unknown Clip";
       start_time_frames := 100; duration_frames := 50; source_in_tc := JInt 0; effects := [] |} = 100%Z.
Proof.
  split; [reflexivity|].
  exact (proj1 (parse_components_contiguous
    (components [clip (JInt 100) "A"; fade; clip (JStr "50") "B"]) _ eq_refl 1 _ eq_refl)).
Defined.

(** ** C10 *)

Lemma pc_step_other (st : list event * Z) (x : json) :
  other_component x -> pc_step st x = Some st.
Proof.
  intros Hx. destruct st as [tl cur]. unfold pc_step.
  destruct Hx as [Hd | [Hs Ho]].
  - rewrite Hd. reflexivity.
  - destruct (is_dict x); [|reflexivity]. simpl. rewrite Hs, Ho. reflexivity.
Qed.

Lemma pc_loop_skip (pre post : list json) (x : json) (st : list event * Z) :
  other_component x -> pc_loop (pre ++ x :: post) st = pc_loop (pre ++ post) st.
Proof.
  intros Hx. revert st. induction pre as [|c pre IH]; intros st.
  - simpl. rewrite pc_step_other by exact Hx. reflexivity.
  - cbn [app pc_loop]. unfold obind.
    destruct (pc_step st c); [apply IH|reflexivity].
Qed.

Lemma dget_last (f : list (string * json)) (k : string) (v : json) :
  dget (f ++ [(k, v)]) k = Some v.
Proof. unfold dget. rewrite rev_app_distr. simpl. rewrite String.eqb_refl. reflexivity. Qed.

Lemma children_of_last (f : list (string * json)) (ch : json) :
  children_of (JObj (f ++ [("children", ch)])) = Some (Some ch).
Proof.
  unfold children_of.
  assert (H : truthy (JObj (f ++ [("children", ch)])) = true) by (destruct f; reflexivity).
  rewrite H. cbv [negb]. rewrite dget_last. reflexivity.
Qed.

(** C10: inserting a component that is neither a SourceClip nor an
    OperationGroup (a Filler, a Transition, ...) anywhere in a Components
    node's children changes nothing in the timeline: no event for it, and no
    cursor advance for the clips after it. *)
Theorem other_component_ignored (fields : list (string * json)) (pre post : list json) (x : json) :
  other_component x ->
  parse_components (JObj (fields ++ [("children", JArr (pre ++ x :: post))])) =
  parse_components (JObj (fields ++ [("children", JArr (pre ++ post))])).
Proof.
  intros Hx. unfold parse_components. rewrite !children_of_last. cbn [obind py_iter].
  rewrite pc_loop_skip by exact Hx. reflexivity.
Qed.

(** A 25-frame Filler between two clips. *)
Lemma other_component_ignored_witness :
  other_component (filler 25) /\
  parse_components (JObj ([("name", JStr "Components")] ++
     [("children", JArr ([clip (JInt 100) "A"] ++ filler 25 :: [clip (JInt 50) "B"]))])) =
  parse_components (JObj ([("name", JStr "Components")] ++
     [("children", JArr ([clip (JInt 100) "A"] ++ [clip (JInt 50) "B"]))])).
Proof.
  assert (H : other_component (filler 25)) by (right; split; reflexivity).
  split; [exact H|].
  exact (other_component_ignored [("name", JStr "Components")] [clip (JInt 100) "A"] [clip (JInt 50) "B"] (filler 25) H).
Defined.

(** ** [get_child_property] with [property_name=None] *)

(** With [property_name=None] the helper never returns a node: it returns
    [child.get(None)], which is [None] for a dict loaded from JSON. *)
Lemma get_child_property_none_arg (n : json) (k : string) :
  get_child_property n k None = None \/ get_child_property n k None = Some JNull.
Proof.
  unfold get_child_property. destruct n; auto.
  destruct (dget fields "children"); auto.
  destruct (py_iter j); auto.
  destruct (find (named k) l); auto.
Qed.

(** The helper raises for every name or for none. *)
Lemma get_child_property_raises (n : json) (k k' : string) (p p' : option string) :
  get_child_property n k p = None -> get_child_property n k' p' = None.
Proof.
  unfold get_child_property. destruct n; try discriminate.
  destruct (dget fields "children"); try discriminate.
  destruct (py_iter j); [|reflexivity].
  destruct (find (named k) l); discriminate.
Qed.

(** ** C3 *)

(** The SourceClip branch raises when [int()] rejects the Length value. *)
Lemma source_clip_unparseable_length :
  parse_components (components [bare_clip (JStr "abc")]) = None.
Proof. reflexivity. Qed.

(** C3: a SourceClip child appends exactly one event, numbered after the
    events so far, starting at the cursor, with duration [int(Length or 0)]
    (0 when the Length scalar is absent, [None] or falsy), [source_in_tc]
    the StartTime scalar ([None] when absent), and advances the cursor by
    that duration; when [int()] cannot convert the Length value the step
    raises instead.  The event's name is always "Unknown Clip": the
    "Source Mob Ref" lookup never returns the wrapper node. *)
Theorem source_clip_event (tl : list event) (cur : Z) (c len stc : json) :
  is_dict c = true -> class_is "SourceClip" c = true ->
  value_of c "Length" = Some len -> value_of c "StartTime" = Some stc ->
  int_or_0 JNull = Some 0%Z /\
  match int_or_0 len with
  | Some d =>
      pc_step (tl, cur) c =
      Some ((tl ++ [{| event_number := Z.of_nat (length tl) + 1; ev_type := "Clip";
                       ev_name := JStr "Unknown Clip"; start_time_frames := cur;
                       duration_frames := d; source_in_tc := stc; effects := [] |}])%list,
            (cur + d)%Z)
  | None => pc_step (tl, cur) c = None
  end.
Proof.
  intros Hd Hs Hl Hst. split; [reflexivity|].
  unfold pc_step. rewrite Hd, Hs. cbv [negb]. rewrite Hl. cbn [obind].
  destruct (int_or_0 len) as [d|]; cbn [obind]; [|reflexivity].
  rewrite Hst. cbn [obind].
  destruct (get_child_property c "Source Mob Ref" None) as [smr|] eqn:Hsmr.
  - destruct (get_child_property_none_arg c "Source Mob Ref") as [H|H]; rewrite Hsmr in H; [discriminate|].
    injection H as ->. reflexivity.
  - unfold value_of in Hl.
    rewrite (get_child_property_raises c "Source Mob Ref" "Length" None (Some "value") Hsmr) in Hl.
    discriminate.
Qed.

(** A 100-frame clip at cursor 0 whose "Source Mob Ref" names the master
    mob "A". *)
Lemma source_clip_event_witness :
  pc_step ([], 0%Z) (clip (JInt 100) "A") =
  Some ([{| event_number := 1; ev_type := "Clip"; ev_name := JStr "Unknown Clip";
            start_time_frames := 0; duration_frames := 100; source_in_tc := JInt 0;
            effects := [] |}], 100%Z).
Proof.
  exact (proj2 (source_clip_event [] 0%Z (clip (JInt 100) "A") (JInt 100) (JInt 0)
                  eq_refl eq_refl eq_refl eq_refl)).
Defined.

(** ** C2 *)

(** [parse_effect] never finds the Parameters list, so it never reports an
    animated parameter. *)
Lemma parse_effect_no_params (e : json) (eff : effect) :
  parse_effect e = Some eff -> animated_params eff = [].
Proof.
  unfold parse_effect, obind.
  destruct (py_get_default e "name" (JStr "Unknown Effect")) as [nm|]; [|discriminate].
  destruct (get_child_property_none_arg e "Parameters") as [H|H]; rewrite H; [discriminate|].
  cbn. intros Heq. injection Heq as <-. reflexivity.
Qed.

Lemma pc_loop_no_effects (l : list json) (tl : list event) (cur : Z) tl' cur' :
  Forall (fun ev => effects ev = []) tl ->
  pc_loop l (tl, cur) = Some (tl', cur') ->
  Forall (fun ev => effects ev = []) tl'.
Proof.
  revert tl cur. induction l as [|c l IH]; intros tl cur Hall H; cbn [pc_loop] in H.
  - injection H as <- <-. exact Hall.
  - unfold obind in H.
    destruct (pc_step (tl, cur) c) as [[tl1 cur1]|] eqn:Hs; [|discriminate].
    apply (IH tl1 cur1); [|exact H].
    unfold pc_step in Hs.
    destruct (negb (is_dict c)); [injection Hs as <- <-; exact Hall|].
    destruct (class_is "SourceClip" c).
    + unfold obind in Hs.
      destruct (value_of c "Length"); [|discriminate].
      destruct (int_or_0 j); [|discriminate].
      destruct (value_of c "StartTime"); [|discriminate].
      destruct (get_child_property c "Source Mob Ref" None); [|discriminate].
      destruct (clip_name_of j1); [|discriminate].
      injection Hs as <- <-. apply Forall_app. split; [exact Hall|].
      constructor; [reflexivity|constructor].
    + destruct (class_is "OperationGroup" c); [|injection Hs as <- <-; exact Hall].
      destruct tl as [|e0 tl0] eqn:Etl; [injection Hs as <- <-; exact Hall|].
      rewrite <- Etl in *. unfold obind in Hs.
      destruct (parse_effect c) as [eff|] eqn:He; [|discriminate].
      rewrite (parse_effect_no_params c eff He) in Hs.
      injection Hs as <- <-. exact Hall.
Qed.

(** No event of any timeline ever carries an effect. *)
Lemma parse_components_no_effects (n : json) (tl : list event) :
  parse_components n = Some tl -> Forall (fun ev => effects ev = []) tl.
Proof.
  unfold parse_components, obind.
  destruct (children_of n) as [[ch|]|]; [|intros H; injection H as <-; constructor|discriminate].
  destruct (py_iter ch) as [l|]; [|discriminate].
  destruct (pc_loop l ([], 0%Z)) as [[tl' cur]|] eqn:Hl; [|discriminate].
  intros H; injection H as <-. exact (pc_loop_no_effects l [] 0%Z tl' cur (Forall_nil _) Hl).
Qed.

(** C2 (the spec's scenario): a SourceClip followed by an OperationGroup
    whose VaryingValue "Opacity" has control points (0, 1.0) and (10, 0.0)
    yields a clip whose [effects] list is empty. *)
Theorem opacity_effect_dropped :
  parse_effect fade = Some {| eff_name := JStr "Fade"; animated_params := [] |} /\
  parse_components (components [clip (JInt 100) "A"; fade]) =
    Some [ {| event_number := 1; ev_type := "Clip"; ev_name := JStr "Unknown Clip";
              start_time_frames := 0; duration_frames := 100; source_in_tc := JInt 0;
              effects := [] |} ].
Proof. split; reflexivity. Qed.

(** ** C1 *)

Lemma parse_composition_mob_nothing (m : json) :
  parse_composition_mob m = None \/ parse_composition_mob m = Some None.
Proof.
  unfold parse_composition_mob, obind.
  destruct (get_child_property_none_arg m "Slots") as [H|H]; rewrite H; auto.
Qed.

Lemma main_loop_nothing (comps : list json) :
  main_loop comps None = None \/ main_loop comps None = Some None.
Proof.
  induction comps as [|m comps IH]; [right; reflexivity|].
  cbn [main_loop]. unfold obind.
  destruct (parse_composition_mob_nothing m) as [H|H]; rewrite H; [left; reflexivity|].
  exact IH.
Qed.

(** [main] never outputs a timeline. *)
Lemma main_never_timeline (data : json) (tl : list event) : main data <> Some (Timeline tl).
Proof.
  unfold main, obind.
  destruct (find_node_by_path data path_to_mobs); [|discriminate].
  destruct (children_of j) as [[ch|]|]; try discriminate.
  destruct (py_iter ch) as [l|]; [|discriminate].
  destruct (filter _ l); [discriminate|].
  destruct (main_loop_nothing (j0 :: l0)) as [H|H]; rewrite H; discriminate.
Qed.

(** The selection itself prefers the named single-clip timeline. *)
Lemma choose_named_clip :
  choose (choose None (Some [ev "Unknown Clip"])) (Some [ev "Interview"]) = Some [ev "Interview"].
Proof. reflexivity. Qed.

(** C1 (the spec's scenario): for a document whose compositions yield a
    single "Unknown Clip" event and a single clip of the master mob
    "Interview", [main] reports that no timeline was found. *)
Theorem two_compositions_no_timeline :
  main two_comps_doc = Some NoTimeline /\
  map parse_composition_mob
      [comp_mob "Wrapper" (bare_clip (JInt 10)); comp_mob "Sequence" (clip (JInt 10) "Interview")] =
    [Some None; Some None].
Proof. split; reflexivity. Qed.

End ParseFacts.

(** * Facts about the inspector trees and the projections *)
Module InspectorFacts.

Import ParseAAF Inspector Samples Props.
Open Scope string_scope.

(** ** Canonical-document trees *)

Lemma filter_some_all f kids :
  Forall (fun o => opt_all f o = true) kids -> forallb (all_nodes f) (filter_some kids) = true.
Proof.
  induction 1 as [|o t Ho _ IH]; [reflexivity|].
  destruct o as [c|]; simpl in *; [rewrite Ho, IH|]; auto.
Qed.

Lemma nonempty_forallb {A : Type} (h : A -> bool) l :
  forallb h l = true -> match nonempty l with None => true | Some l' => forallb h l' end = true.
Proof. destruct l; simpl; auto. Qed.

Lemma mk_some v it value kids c :
  mk v it value kids = Some c ->
  excluded v (name it) (class_name it) = false /\
  c = CNode (JStr (name it)) (class_name it) value (nonempty (filter_some kids)).
Proof. unfold mk. destruct excluded; intros H; inversion H; auto. Qed.

Lemma mk_none v it value kids :
  mk v it value kids = None <-> excluded v (name it) (class_name it) = true.
Proof. unfold mk. destruct excluded; split; congruence. Qed.

Lemma mk_all f v it value kids :
  Forall (fun o => opt_all f o = true) kids ->
  (forall c, mk v it value kids = Some c -> f c = true) ->
  opt_all f (mk v it value kids) = true.
Proof.
  intros Hk Hf. destruct (mk v it value kids) as [c|] eqn:E; [|reflexivity].
  pose proof (Hf c eq_refl) as Hc. apply mk_some in E as [_ ->].
  simpl in *. rewrite Hc. apply nonempty_forallb, filter_some_all, Hk.
Qed.

Lemma lookup_key_in {A : Type} k (l : list (Z * A)) a :
  lookup_key k l = Some a -> In (k, a) l.
Proof.
  induction l as [|[k' a'] t IH]; simpl; [discriminate|].
  destruct (Z.eqb_spec k' k); intros H; [inversion H; subst; auto|auto].
Qed.

(** ** [sorted] as insertion sort *)

Lemma in_insert_by {A : Type} (k : A -> string) x y l :
  In x (insert_by k y l) <-> y = x \/ In x l.
Proof.
  induction l as [|z t IH]; simpl; [tauto|].
  destruct String.leb; simpl; rewrite ?IH; tauto.
Qed.

Lemma perm_insert_by {A : Type} (k : A -> string) y l :
  Permutation (insert_by k y l) (y :: l).
Proof.
  induction l as [|z t IH]; simpl; [auto|].
  destruct String.leb; [|auto].
  eapply perm_trans; [apply perm_skip, IH|apply perm_swap].
Qed.

Lemma perm_fold_insert {A : Type} (k : A -> string) l acc :
  Permutation (fold_left (fun acc x => insert_by k x acc) l acc) (acc ++ l)%list.
Proof.
  revert acc; induction l as [|x t IH]; intros acc; simpl.
  - rewrite app_nil_r; auto.
  - eapply perm_trans; [apply IH|].
    eapply perm_trans; [apply Permutation_app_tail, perm_insert_by|].
    apply Permutation_middle.
Qed.

Lemma sort_by_perm {A : Type} (k : A -> string) l : Permutation (sort_by k l) l.
Proof. apply perm_fold_insert. Qed.

Lemma in_sort_by {A : Type} (k : A -> string) x l : In x (sort_by k l) -> In x l.
Proof. intros H. eapply Permutation_in; [apply sort_by_perm|exact H]. Qed.

Lemma string_compare_le_trans : forall a b c,
  String.compare a b <> Gt -> String.compare b c <> Gt -> String.compare a c <> Gt.
Proof.
  induction a as [|ca a IH]; intros [|cb b] [|cc c]; simpl; try congruence.
  unfold Ascii.compare.
  destruct (N.compare_spec (N_of_ascii ca) (N_of_ascii cb));
  destruct (N.compare_spec (N_of_ascii cb) (N_of_ascii cc));
  destruct (N.compare_spec (N_of_ascii ca) (N_of_ascii cc));
  intros Hab Hbc; try congruence; try lia; eauto.
Qed.

Lemma string_leb_trans a b c :
  String.leb a b = true -> String.leb b c = true -> String.leb a c = true.
Proof.
  unfold String.leb. intros Hab Hbc.
  assert (H : String.compare a c <> Gt).
  { apply string_compare_le_trans with b;
      [destruct (String.compare a b)|destruct (String.compare b c)]; congruence. }
  destruct (String.compare a c); congruence.
Qed.

Lemma string_leb_refl a : String.leb a a = true.
Proof. destruct (String.leb_total a a); assumption. Qed.

Lemma key_le_trans {A : Type} (k : A -> string) : Relations_1.Transitive (key_le k).
Proof. intros a b c; unfold key_le; apply string_leb_trans. Qed.

Lemma sorted_insert_by {A : Type} (k : A -> string) x l :
  Sorted (key_le k) l -> Sorted (key_le k) (insert_by k x l).
Proof.
  induction l as [|y t IH]; simpl; intros Hs; [repeat constructor|].
  destruct (String.leb (k y) (k x)) eqn:E.
  - apply Sorted_inv in Hs as [Ht Hh]. constructor; [apply IH, Ht|].
    destruct t as [|z t']; simpl; [constructor; exact E|].
    destruct (String.leb (k z) (k x)); constructor; [inversion Hh; assumption|exact E].
  - constructor; [exact Hs|]. constructor. unfold key_le.
    destruct (String.leb_total (k x) (k y)); congruence.
Qed.

Lemma sorted_fold_insert {A : Type} (k : A -> string) l acc :
  Sorted (key_le k) acc -> Sorted (key_le k) (fold_left (fun acc x => insert_by k x acc) l acc).
Proof.
  revert acc; induction l as [|x t IH]; intros acc Hs; simpl; [exact Hs|].
  apply IH, sorted_insert_by, Hs.
Qed.

Lemma sort_by_sorted {A : Type} (k : A -> string) l : Sorted (key_le k) (sort_by k l).
Proof. apply sorted_fold_insert. constructor. Qed.

Lemma filter_none {A : Type} (f : A -> bool) l :
  (forall z, In z l -> f z = false) -> filter f l = [].
Proof.
  induction l as [|z t IH]; simpl; intros H; [reflexivity|].
  rewrite (H z (or_introl eq_refl)). apply IH. auto.
Qed.

Lemma filter_insert_by {A : Type} (k : A -> string) kk x l :
  StronglySorted (key_le k) l ->
  filter (fun p => String.eqb (k p) kk) (insert_by k x l) =
  (filter (fun p => String.eqb (k p) kk) l ++ filter (fun p => String.eqb (k p) kk) [x])%list.
Proof.
  set (F := fun p => String.eqb (k p) kk).
  induction l as [|y t IH]; intros Hs; [reflexivity|].
  apply StronglySorted_inv in Hs as [Ht Hall].
  cbn [insert_by]. destruct (String.leb (k y) (k x)) eqn:E.
  - cbn [filter]. rewrite (IH Ht). destruct (F y); reflexivity.
  - change (filter F (x :: y :: t) = filter F (y :: t) ++ filter F [x])%list.
    cbn [filter]. destruct (F x) eqn:Fx.
    + unfold F in Fx. apply String.eqb_eq in Fx. subst kk.
      assert (Hn : filter F (y :: t) = []).
      { apply filter_none. intros z [<-|Hz]; unfold F; apply String.eqb_neq; intros Ez.
        - rewrite Ez, string_leb_refl in E. discriminate.
        - rewrite Forall_forall in Hall. specialize (Hall z Hz). unfold key_le in Hall.
          rewrite Ez in Hall. congruence. }
      cbn [filter] in Hn. rewrite Hn. reflexivity.
    + rewrite app_nil_r. reflexivity.
Qed.

Lemma filter_fold_insert {A : Type} (k : A -> string) kk l acc :
  Sorted (key_le k) acc ->
  filter (fun p => String.eqb (k p) kk) (fold_left (fun acc x => insert_by k x acc) l acc) =
  (filter (fun p => String.eqb (k p) kk) acc ++ filter (fun p => String.eqb (k p) kk) l)%list.
Proof.
  revert acc; induction l as [|x t IH]; intros acc Hs; simpl.
  - rewrite app_nil_r. reflexivity.
  - rewrite (IH _ (sorted_insert_by k x acc Hs)).
    rewrite filter_insert_by by (apply Sorted_StronglySorted; [apply key_le_trans|exact Hs]).
    rewrite <- app_assoc. simpl. destruct (String.eqb (k x) kk); reflexivity.
Qed.

Lemma sort_by_stable {A : Type} (k : A -> string) kk l :
  filter (fun p => String.eqb (k p) kk) (sort_by k l) = filter (fun p => String.eqb (k p) kk) l.
Proof. unfold sort_by. rewrite filter_fold_insert by constructor. reflexivity. Qed.

(** ** Properties holding at every node of the export *)

Section ConvAll.
Variable v : version.
Variable f : cnode -> bool.
Hypothesis Hf : forall it value kids c,
  mk v it value kids = Some c -> (value = None \/ kids = []) -> f c = true.

Lemma conv_none_all : opt_all f (conv_none v) = true.
Proof. apply mk_all; [constructor|intros; eapply Hf; eauto]. Qed.

Lemma conv_g_all : forall g, opt_all f (conv_g v g) = true.
Proof.
  apply gnode_ind'.
  - intros c n props refs Hp Hr. cbn [conv_g].
    apply mk_all; [|intros; eapply Hf; eauto].
    apply Forall_app; split.
    + apply Forall_forall. intros o Ho. apply in_map_iff in Ho as [[k o'] [Eo Hin]].
      simpl in Eo; subst o'.
      apply in_sort_by, in_map_iff in Hin as [p [Ep Hin]]. inversion Ep; subst.
      rewrite Forall_forall in Hp. exact (Hp p Hin).
    + destruct (backref_gate v c); [|constructor].
      destruct refs as [[m s]|]; [|constructor]. destruct Hr as [Hm Hs].
      apply Forall_app; split; [destruct m as [t|]|destruct s as [t|]]; simpl in *;
        repeat constructor; apply mk_all; try (intros; eapply Hf; eauto);
        repeat constructor; assumption.
  - intros n pv. cbn [conv_g]. apply mk_all; [constructor|intros; eapply Hf; eauto].
  - intros n [t|] Ht; cbn [conv_g]; apply mk_all; try (intros; eapply Hf; eauto);
      repeat constructor; exact Ht.
  - intros n items Hi. cbn [conv_g]. apply mk_all; [|intros; eapply Hf; eauto].
    apply Forall_map. exact Hi.
  - intros n entries He. cbn [conv_g]. apply mk_all; [|intros; eapply Hf; eauto].
    apply Forall_forall. intros o Ho. apply in_map_iff in Ho as [key [Eo _]].
    subst o. destruct (lookup_key key _) as [r|] eqn:E; [|apply conv_none_all].
    apply lookup_key_in, in_map_iff in E as [[k x] [Ekx Hin]]. inversion Ekx; subst.
    rewrite Forall_forall in He. exact (He _ Hin).
Qed.

Lemma convert_node_to_dict_all : forall it, opt_all f (convert_node_to_dict v it) = true.
Proof.
  intros [l|g|label t|]; simpl.
  - apply mk_all; [|intros; eapply Hf; eauto].
    apply Forall_forall. intros o Ho. apply in_map_iff in Ho as [g [<- _]]. apply conv_g_all.
  - apply conv_g_all.
  - apply mk_all; [repeat constructor; apply conv_g_all|intros; eapply Hf; eauto].
  - apply conv_none_all.
Qed.

End ConvAll.

Lemma traverse_in {A B : Type} (h : A -> option B) l r :
  traverse h l = Some r -> forall y, In y r -> exists x, In x l /\ h x = Some y.
Proof.
  revert r; induction l as [|x t IH]; intros r; simpl.
  - intros H; inversion H; subst; intros y [].
  - destruct (h x) as [b|] eqn:Ex; simpl; [|discriminate].
    destruct (traverse h t) as [r'|] eqn:Et; simpl; [|discriminate].
    intros H; inversion H; subst. intros y [<-|Hy]; [eauto|].
    destruct (IH r' eq_refl y Hy) as [x' [Hx' E']]. eauto.
Qed.

Lemma traverse_length {A B : Type} (h : A -> option B) l r :
  traverse h l = Some r -> length r = length l.
Proof.
  revert r; induction l as [|x t IH]; intros r; simpl.
  - intros H; inversion H; reflexivity.
  - destruct (h x); simpl; [|discriminate].
    destruct (traverse h t) as [r'|]; simpl; [|discriminate].
    intros H; inversion H; subst; simpl; f_equal; auto.
Qed.

Lemma in_concat_iff' {A : Type} (y : A) ls : In y (concat ls) -> exists l, In l ls /\ In y l.
Proof. intros H. apply in_concat in H. exact H. Qed.

Section BuildAll.
Variable f : cnode -> bool.
Hypothesis Hnode : forall nm cls ch, f (CNode nm cls None ch) = true.
Hypothesis Hleaf : forall nm pv, f (CNode nm "Property" (Some (serialize pv)) None) = true.

Lemma build_all_children nm cls l :
  (forall y, In y l -> all_nodes f y = true) -> all_nodes f (CNode nm cls None (nonempty l)) = true.
Proof.
  intros H. simpl. rewrite Hnode. apply nonempty_forallb, forallb_forall. exact H.
Qed.

Lemma slot_child_all slot bld l :
  (forall nm, opt_all f (bld nm) = true) ->
  slot_child slot bld = Some l -> forall y, In y l -> all_nodes f y = true.
Proof.
  unfold slot_child. intros Hb.
  destruct (slot_attr_name slot) as [sn|]; simpl; [|discriminate].
  destruct (keep_slot sn); [|intros H; inversion H; subst; intros y []].
  destruct (slot_name slot) as [n|]; simpl; [|discriminate].
  specialize (Hb n). destruct (bld n) as [cn|]; simpl; [|discriminate].
  intros H; inversion H; subst. intros y [<-|[]]. exact Hb.
Qed.

Lemma build_node_all : forall g,
  (forall nm, opt_all f (build_node g nm) = true) /\
  (forall x, In x (members g) -> forall nm, opt_all f (build_node x nm) = true).
Proof.
  apply gnode_ind'.
  - intros c n props refs Hp _. split; [|intros x []].
    intros nm. cbn [build_node].
    destruct (traverse _ props) as [chs|] eqn:E; simpl; [|reflexivity].
    apply build_all_children. intros y Hy.
    apply in_concat_iff' in Hy as [l [Hl Hy]].
    destruct (traverse_in _ _ _ E l Hl) as [p [Hin Ep]].
    rewrite Forall_forall in Hp. destruct (Hp p Hin) as [Hp1 Hp2].
    destruct (String.eqb c "CompositionMob" && String.eqb (pname_of p) "Slots").
    + destruct p as [| | |n' slots|n' entries]; try discriminate.
      * destruct (traverse _ slots) as [kept|] eqn:Ek; simpl in Ep; [|discriminate].
        inversion Ep; subst. apply in_concat_iff' in Hy as [l' [Hl' Hy]].
        destruct (traverse_in _ _ _ Ek l' Hl') as [slot [Hs Es]].
        exact (slot_child_all slot _ l' (Hp2 slot Hs) Es y Hy).
      * destruct (traverse _ entries) as [kept|] eqn:Ek; simpl in Ep; [|discriminate].
        inversion Ep; subst. apply in_concat_iff' in Hy as [l' [Hl' Hy]].
        destruct (traverse_in _ _ _ Ek l' Hl') as [[k slot] [Hs Es]].
        refine (slot_child_all slot _ l' (Hp2 slot _) Es y Hy).
        simpl. apply in_map_iff. exists (k, slot). auto.
    + specialize (Hp1 (JStr (pname_of p))).
      destruct (build_node p (JStr (pname_of p))) as [cn|]; simpl in Ep; [|discriminate].
      inversion Ep; subst. destruct Hy as [<-|[]]. exact Hp1.
  - intros n pv. split; [|intros x []]. intros nm. simpl. rewrite Hleaf. reflexivity.
  - intros n [t|] Ht; (split; [|intros x []]); intros nm; cbn [build_node].
    + destruct Ht as [Ht _]. specialize (Ht (child_name t)).
      destruct (build_node t (child_name t)) as [cn|]; simpl in *; [|reflexivity].
      rewrite Hnode, Ht. reflexivity.
    + simpl. rewrite Hnode. reflexivity.
  - intros n items Hi. rewrite Forall_forall in Hi.
    split; [|intros x Hx; exact (proj1 (Hi x Hx))].
    intros nm. cbn [build_node].
    destruct (traverse _ items) as [chs|] eqn:E; simpl; [|reflexivity].
    apply build_all_children. intros y Hy.
    destruct (traverse_in _ _ _ E y Hy) as [x [Hx Ex]].
    pose proof (proj1 (Hi x Hx) (child_name x)) as H. rewrite Ex in H. exact H.
  - intros n entries He. rewrite Forall_forall in He.
    split.
    + intros nm. cbn [build_node].
      destruct (traverse _ entries) as [chs|] eqn:E; simpl; [|reflexivity].
      apply build_all_children. intros y Hy.
      destruct (traverse_in _ _ _ E y Hy) as [[k x] [Hx Ex]].
      pose proof (proj1 (He _ Hx) (child_name x)) as H. simpl in Ex, H. rewrite Ex in H. exact H.
    + intros x Hx nm. simpl in Hx. apply in_map_iff in Hx as [[k x'] [Ex Hx]].
      simpl in Ex; subst x'. exact (proj1 (He _ Hx) nm).
Qed.

Lemma batch_document_all : forall g, opt_all f (batch_document g) = true.
Proof.
  intros g. unfold batch_document.
  pose proof (proj1 (build_node_all g) (JStr "Header")) as H.
  destruct (build_node g (JStr "Header")) as [cn|]; simpl in *; [|reflexivity].
  rewrite Hnode, H. reflexivity.
Qed.

End BuildAll.

(** ** The batch projection outside composition mobs *)

Lemma traverse_singleton {A B : Type} (F : A -> option (list B)) (h : A -> option B) :
  (forall p, F p = (let* cn := h p in Some [cn])) ->
  forall l, traverse F l = option_map (map (fun c => [c])) (traverse h l).
Proof.
  intros HF l. induction l as [|x t IH]; [reflexivity|].
  simpl. rewrite HF. destruct (h x); simpl; [|reflexivity].
  rewrite IH. destruct (traverse h t); reflexivity.
Qed.

Lemma concat_singletons {A : Type} (l : list A) : concat (map (fun c => [c]) l) = l.
Proof. induction l as [|x t IH]; simpl; [reflexivity|]. rewrite IH. reflexivity. Qed.

Lemma build_node_plain c n props refs nm :
  String.eqb c "CompositionMob" = false ->
  build_node (GObject c n props refs) nm =
  option_map (fun ch => CNode nm c None (nonempty ch))
    (traverse (fun p => build_node p (JStr (pname_of p))) props).
Proof.
  intros Hc. cbn [build_node]. rewrite Hc.
  rewrite (traverse_singleton _ (fun p => build_node p (JStr (pname_of p)))) by (intros; reflexivity).
  destruct (traverse _ props); simpl; [rewrite concat_singletons|]; reflexivity.
Qed.

(** ** Rows of a set property *)

Lemma length_insert_Z x l : length (insert_Z x l) = S (length l).
Proof.
  induction l as [|y t IH]; simpl; [reflexivity|].
  destruct (y <=? x)%Z; simpl; [rewrite IH|]; reflexivity.
Qed.

Lemma length_sort_Z l : length (sort_Z l) = length l.
Proof.
  unfold sort_Z.
  assert (H : forall l acc, length (fold_left (fun acc x => insert_Z x acc) l acc) = (length acc + length l)%nat).
  { induction l0 as [|x t IH]; intros acc; simpl; [lia|]. rewrite IH, length_insert_Z. simpl. lia. }
  rewrite H. reflexivity.
Qed.

Lemma set_child_negative v n entries row :
  (- Z.of_nat (length entries) <= row < 0)%Z ->
  exists it, child v (IG (GSet n entries)) row = Child it row.
Proof.
  intros Hr. unfold child, references, py_index. cbn [extended length Z.of_nat].
  rewrite length_sort_Z, length_map.
  rewrite (proj2 (Z.leb_gt 0 row)) by lia.
  rewrite (proj2 (Z.ltb_lt row (Z.of_nat (length entries)))) by lia.
  rewrite (proj2 (Z.ltb_lt row 0)) by lia.
  rewrite (proj2 (Z.leb_le (- Z.of_nat (length entries)) row)) by lia.
  cbn [andb].
  destruct (nth_error (sort_Z (map fst entries)) _) as [key|] eqn:E.
  - destruct (lookup_key key entries); eauto.
  - exfalso. apply nth_error_None in E. rewrite length_sort_Z, length_map in E. lia.
Qed.

Lemma set_child_below v n entries row :
  (row < - Z.of_nat (length entries))%Z ->
  child v (IG (GSet n entries)) row = ChildRaises.
Proof.
  intros Hr. unfold child, references, py_index. cbn [extended length Z.of_nat].
  rewrite length_sort_Z, length_map.
  rewrite (proj2 (Z.leb_gt 0 row)) by lia.
  rewrite (proj2 (Z.ltb_lt row (Z.of_nat (length entries)))) by lia.
  rewrite (proj2 (Z.leb_gt (- Z.of_nat (length entries)) row)) by lia.
  reflexivity.
Qed.

(** ** Children of a node, in both converters *)

Lemma traverse_forall2 {A B : Type} (h : A -> option B) l r :
  traverse h l = Some r -> Forall2 (fun x y => h x = Some y) l r.
Proof.
  revert r; induction l as [|x t IH]; intros r; simpl.
  - intros H; inversion H; constructor.
  - destruct (h x) as [b|] eqn:Ex; simpl; [|discriminate].
    destruct (traverse h t) as [r'|] eqn:Et; simpl; [|discriminate].
    intros H; inversion H; subst. constructor; auto.
Qed.

Lemma traverse_ext {A B : Type} (f g : A -> option B) l :
  (forall x, f x = g x) -> traverse f l = traverse g l.
Proof. intros H. induction l as [|x t IH]; simpl; [reflexivity|]. rewrite H, IH. reflexivity. Qed.

Lemma kept_slots {A : Type} (pr : A -> gnode) l kept :
  traverse (fun e => slot_child (pr e) (build_node (pr e))) l = Some kept ->
  map Some (concat kept) = map build_slot (filter slot_kept (map pr l)).
Proof.
  revert kept; induction l as [|e t IH]; intros kept; simpl.
  - intros H; inversion H; reflexivity.
  - unfold slot_child, slot_kept at 1.
    destruct (slot_attr_name (pr e)) as [sn|]; cbn [obind]; [|discriminate].
    destruct (traverse _ t) as [r|] eqn:Et;
      [|destruct (keep_slot sn); cbn [obind];
        [destruct (slot_name (pr e)); cbn [obind]; [destruct (build_node (pr e) _)|]|]; cbn [obind]; discriminate].
    specialize (IH r eq_refl).
    destruct (keep_slot sn); cbn [obind].
    + destruct (slot_name (pr e)) as [j|] eqn:Ej; cbn [obind]; [|discriminate].
      destruct (build_node (pr e) j) as [cn|] eqn:Eb; cbn [obind]; [|discriminate].
      intros H; inversion H; subst. simpl. rewrite IH.
      f_equal. unfold build_slot. rewrite Ej. cbn [obind]. rewrite Eb. reflexivity.
    + intros H; inversion H; subst. simpl. exact IH.
Qed.

(** The batch converter's children of an object, property by property. *)
Lemma build_object_children c n props refs nm cn :
  build_node (GObject c n props refs) nm = Some cn ->
  exists chs,
    Forall2 (fun p ch =>
      map Some ch =
        if String.eqb c "CompositionMob" && String.eqb (pname_of p) "Slots"
        then map build_slot (filter slot_kept (members p))
        else [build_node p (JStr (pname_of p))]) props chs /\
    cchildren cn = concat chs.
Proof.
  cbn [build_node].
  destruct (traverse _ props) as [chs|] eqn:E; cbn [obind]; [|discriminate].
  intros H; inversion H; subst cn. exists chs. split.
  - apply traverse_forall2 in E. eapply Forall2_impl; [|exact E].
    intros p ch Hp. cbv beta in Hp.
    destruct (String.eqb c "CompositionMob" && String.eqb (pname_of p) "Slots").
    + destruct p as [| | |pn slots|pn entries]; try discriminate.
      * destruct (traverse _ slots) as [kept|] eqn:Ek; cbn [obind] in Hp; [|discriminate].
        inversion Hp; subst ch. cbn [members].
        pose proof (kept_slots (fun s => s) slots kept Ek) as K.
        rewrite map_id in K. exact K.
      * destruct (traverse _ entries) as [kept|] eqn:Ek; cbn [obind] in Hp; [|discriminate].
        inversion Hp; subst ch. cbn [members].
        apply (kept_slots snd).
        rewrite <- Ek. apply traverse_ext. intros [k s]. reflexivity.
    + destruct (build_node p _) as [x|]; cbn [obind] in Hp; [|discriminate].
      inversion Hp; subst. reflexivity.
  - destruct chs as [|ch t]; [reflexivity|].
    simpl. destruct (ch ++ concat t)%list; reflexivity.
Qed.

Lemma concat_nth_seq {A : Type} (l : list A) :
  concat (map (fun i => match nth_error l i with Some c => [c] | None => [] end) (seq 0 (length l))) = l.
Proof.
  induction l as [|x t IH]; [reflexivity|].
  cbn [length seq map concat nth_error]. rewrite <- seq_shift, map_map.
  cbn [nth_error]. rewrite IH. reflexivity.
Qed.

Lemma child_items_of v it (L : list item) :
  length L = child_count v it ->
  (forall i, (i < length L)%nat ->
     child v it (Z.of_nat i) = match nth_error L i with Some c => Child c (Z.of_nat i) | None => NoChild end) ->
  child_items v it = L.
Proof.
  intros Hl Hc. unfold child_items. rewrite <- Hl.
  rewrite <- (concat_nth_seq L) at 2. f_equal. apply map_ext_in.
  intros i Hi. apply in_seq in Hi. rewrite Hc by lia.
  destruct (nth_error L i); reflexivity.
Qed.

Lemma child_in_extended v it i :
  (i < length (extended v it))%nat ->
  child v it (Z.of_nat i) =
  match nth_error (extended v it) i with Some c => Child c (Z.of_nat i) | None => NoChild end.
Proof.
  intros Hi. unfold child.
  rewrite (proj2 (Z.leb_le 0 (Z.of_nat i))) by lia.
  rewrite (proj2 (Z.ltb_lt (Z.of_nat i) (Z.of_nat (length (extended v it))))) by lia.
  rewrite Nat2Z.id. reflexivity.
Qed.

Lemma child_items_ext v it :
  (forall n l, it <> IG (GVector n l)) -> (forall n es, it <> IG (GSet n es)) ->
  child_items v it = extended v it.
Proof.
  intros Hv Hs. apply child_items_of.
  - destruct it as [l|g|lb t|]; try reflexivity.
    destruct g as [c n props refs|pn pv|pn [t|]|pn items|pn entries]; try reflexivity.
    + exfalso; exact (Hv pn items eq_refl).
    + exfalso; exact (Hs pn entries eq_refl).
  - intros i Hi. apply child_in_extended. exact Hi.
Qed.

Lemma child_items_vector v n items :
  child_items v (IG (GVector n items)) = map IG items.
Proof.
  apply child_items_of; [rewrite length_map; reflexivity|].
  intros i Hi. rewrite length_map in Hi. unfold child. cbn [extended length Z.of_nat].
  rewrite (proj2 (Z.ltb_ge (Z.of_nat i) 0)) by lia. rewrite andb_false_r.
  rewrite (proj2 (Z.leb_le 0 (Z.of_nat i))) by lia.
  rewrite (proj2 (Z.ltb_lt (Z.of_nat i) (Z.of_nat (length items)))) by lia.
  rewrite Nat2Z.id, nth_error_map. cbn [andb].
  destruct (nth_error items i); reflexivity.
Qed.

Lemma child_items_set v n entries :
  child_items v (IG (GSet n entries)) =
  map (fun k => match lookup_key k entries with Some g => IG g | None => INone end) (sort_Z (map fst entries)).
Proof.
  apply child_items_of; [rewrite length_map, length_sort_Z, length_map; reflexivity|].
  intros i Hi. rewrite length_map, length_sort_Z, length_map in Hi.
  unfold child, references, py_index. cbn [extended length Z.of_nat].
  rewrite (proj2 (Z.ltb_ge (Z.of_nat i) 0)) by lia. rewrite andb_false_r.
  rewrite length_sort_Z, length_map.
  rewrite (proj2 (Z.ltb_lt (Z.of_nat i) (Z.of_nat (length entries)))) by lia.
  rewrite (proj2 (Z.leb_le 0 (Z.of_nat i))) by lia. cbn [andb].
  rewrite Nat2Z.id, nth_error_map.
  destruct (nth_error (sort_Z (map fst entries)) i) as [k|] eqn:E; simpl.
  - destruct (lookup_key k entries); reflexivity.
  - exfalso. apply nth_error_None in E. rewrite length_sort_Z, length_map in E. lia.
Qed.

Lemma insert_by_map {A B : Type} (k : B -> string) (k' : A -> string) (h : A -> B)
    (Hk : forall x, k (h x) = k' x) x acc :
  insert_by k (h x) (map h acc) = map h (insert_by k' x acc).
Proof.
  induction acc as [|y t IH]; simpl; [reflexivity|].
  rewrite !Hk. destruct (String.leb (k' y) (k' x)); simpl; [rewrite IH|]; reflexivity.
Qed.

Lemma sort_by_map {A B : Type} (k : B -> string) (k' : A -> string) (h : A -> B)
    (Hk : forall x, k (h x) = k' x) l :
  sort_by k (map h l) = map h (sort_by k' l).
Proof.
  unfold sort_by. change (@nil B) with (map h (@nil A)).
  generalize (@nil A) as acc. induction l as [|x t IH]; intros acc; simpl; [reflexivity|].
  rewrite (insert_by_map k k' h Hk). apply IH.
Qed.

Lemma lookup_key_map {A B : Type} (f : A -> B) k (entries : list (Z * A)) :
  lookup_key k (map (fun '(k', x) => (k', f x)) entries) = option_map f (lookup_key k entries).
Proof.
  induction entries as [|[k' x] t IH]; simpl; [reflexivity|].
  destruct (k' =? k)%Z; [reflexivity|exact IH].
Qed.

(** One call of [_convert_node_to_dict] on [it] builds its node from the
    results of the calls on [child(i)] for [i in range(childCount())]. *)
Lemma convert_mk v it :
  exists value,
    convert_node_to_dict v it = mk v it value (map (convert_node_to_dict v) (child_items v it)).
Proof.
  destruct it as [l|g|lb t|].
  - exists None. rewrite child_items_ext by discriminate. cbn [extended convert_node_to_dict].
    rewrite map_map. reflexivity.
  - destruct g as [c n props refs|pn pv|pn [t|]|pn items|pn entries].
    + exists None. rewrite child_items_ext by discriminate. cbn [extended convert_node_to_dict conv_g].
      rewrite map_app, map_map.
      rewrite (sort_by_map fst pname_of (fun p => (pname_of p, conv_g v p))) by reflexivity.
      rewrite map_map. cbn [snd]. f_equal. f_equal.
      unfold backref_items. destruct (backref_gate v c); [|reflexivity].
      destruct refs as [[m s]|]; [|reflexivity].
      rewrite map_app. destruct m, s; reflexivity.
    + exists (Some (serialize pv)). rewrite child_items_ext by discriminate. reflexivity.
    + exists None. rewrite child_items_ext by discriminate. reflexivity.
    + exists None. rewrite child_items_ext by discriminate. reflexivity.
    + exists None. rewrite child_items_vector. cbn [convert_node_to_dict conv_g].
      rewrite map_map. reflexivity.
    + exists None. rewrite child_items_set. cbn [convert_node_to_dict conv_g].
      rewrite map_map. f_equal. apply map_ext. intros k.
      rewrite lookup_key_map. destruct (lookup_key k entries); reflexivity.
  - exists None. rewrite child_items_ext by discriminate. reflexivity.
  - exists None. rewrite child_items_ext by discriminate. reflexivity.
Qed.

Lemma convert_none_iff v it :
  convert_node_to_dict v it = None <-> excluded v (name it) (class_name it) = true.
Proof. destruct (convert_mk v it) as [value ->]. apply mk_none. Qed.

Lemma convert_children v it c :
  convert_node_to_dict v it = Some c ->
  cchildren c = filter_some (map (convert_node_to_dict v) (child_items v it)).
Proof.
  destruct (convert_mk v it) as [value ->]. intros H.
  apply mk_some in H. destruct H as [_ ->]. cbn [cchildren].
  destruct (filter_some _); reflexivity.
Qed.

(** ** Claims *)

(** C5: neither the interactive export ([_convert_node_to_dict], both
    versions, from any tree item) nor the batch converter ([build_node] and
    the document it is wrapped in) ever emits a node carrying both a
    ["value"] and a ["children"] key, at any depth. *)
Theorem projection_value_xor_children :
  (forall v it, opt_all value_xor_children (convert_node_to_dict v it) = true) /\
  (forall g nm, opt_all value_xor_children (build_node g nm) = true) /\
  (forall g, opt_all value_xor_children (batch_document g) = true).
Proof.
  split; [|split].
  - intros v. apply convert_node_to_dict_all.
    intros it value kids c E [->| ->]; apply mk_some in E as [_ ->];
      [reflexivity|destruct value; reflexivity].
  - intros g. apply (build_node_all value_xor_children); reflexivity.
  - apply batch_document_all; reflexivity.
Qed.

(** C6 (counterexample): the batch converter keeps the [TimelineMobSlot]
    "A1" of a MasterMob, while the original export drops it. *)
Lemma batch_keeps_audio_slot :
  opt_all (fun c => negb (excl_node c)) (build_node master_mob (JStr "Interview")) = false /\
  opt_all (fun c => negb (excl_node c)) (conv_g Original master_mob) = true.
Proof. split; vm_compute; reflexivity. Qed.

(** C6 (amended): in the original export a node is dropped exactly when its
    class is [TimelineMobSlot] and its lower-cased name is in
    {a1..a8, data}, in both versions a node is dropped exactly when the
    version's filter excludes it, and no excluded node appears at any depth
    of the original export.  Dropping removes only that subtree: every
    emitted node's children are the results of all its other child items
    ([child(i)] for [i] in [range(childCount())]), in order, whatever the
    kind of the node.  The enhanced export drops nothing.  The batch
    converter converts every property of an object that is not a
    CompositionMob; in a CompositionMob every property is converted except
    Slots, which is replaced by the slots whose lower-cased name is not in
    {a1..a8, data track}, whatever their class. *)
Theorem original_export_exclusion :
  (forall g, conv_g Original g = None <->
             excluded Original (name (IG g)) (class_name (IG g)) = true) /\
  (forall v it, convert_node_to_dict v it = None <->
                excluded v (name it) (class_name it) = true) /\
  (forall it, opt_all (fun c => negb (excl_node c)) (convert_node_to_dict Original it) = true) /\
  (forall v it c, convert_node_to_dict v it = Some c ->
     cchildren c = filter_some (map (convert_node_to_dict v) (child_items v it))) /\
  (forall n items, conv_g Original (GVector n items) =
     Some (CNode (JStr (name (IG (GVector n items)))) "StrongRefVectorProperty" None
             (nonempty (filter_some (map (conv_g Original) items))))) /\
  (forall it, convert_node_to_dict Enhanced it <> None) /\
  (forall c n props refs nm, String.eqb c "CompositionMob" = false ->
     build_node (GObject c n props refs) nm =
     option_map (fun ch => CNode nm c None (nonempty ch))
       (traverse (fun p => build_node p (JStr (pname_of p))) props)) /\
  (forall n props refs nm cn,
     build_node (GObject "CompositionMob" n props refs) nm = Some cn ->
     exists chs,
       Forall2 (fun p ch =>
         map Some ch =
           if String.eqb (pname_of p) "Slots"
           then map build_slot (filter slot_kept (members p))
           else [build_node p (JStr (pname_of p))]) props chs /\
       cchildren cn = concat chs).
Proof.
  split; [|split; [|split; [|split; [|split; [|split; [|split]]]]]].
  - intros [c n props refs|n pv|n [t|]|n items|n entries]; cbn [conv_g]; apply mk_none.
  - apply convert_none_iff.
  - apply convert_node_to_dict_all. intros it value kids c E _.
    apply mk_some in E as [Hex ->].
    change (negb (excluded Original (name it) (class_name it)) = true). rewrite Hex. reflexivity.
  - apply convert_children.
  - intros n items. reflexivity.
  - intros it E. apply convert_none_iff in E. discriminate.
  - intros c n props refs nm. apply build_node_plain.
  - intros n props refs nm cn H. exact (build_object_children _ _ _ _ _ _ H).
Qed.

Lemma original_export_exclusion_witness :
  (String.eqb "MasterMob" "CompositionMob" = false /\
   build_node master_mob (JStr "Interview") =
   option_map (fun ch => CNode (JStr "Interview") "MasterMob" None (nonempty ch))
     (traverse (fun p => build_node p (JStr (pname_of p)))
        [GScalar "Name" (PStr "Interview"); GVector "Slots" [slot "A1"]])) /\
  (conv_g Original (GVector "Slots" [slot "A1"; slot "V1"]) =
     Some (CNode (JStr "Slots") "StrongRefVectorProperty" None (Some [v1_node])) /\
   [v1_node] =
     filter_some (map (convert_node_to_dict Original)
       (child_items Original (IG (GVector "Slots" [slot "A1"; slot "V1"]))))) /\
  (build_node comp (JStr "Sequence") =
     Some (CNode (JStr "Sequence") "CompositionMob" None
             (Some [CNode (JStr "Name") "Property" (Some (JStr "Sequence")) None; v1_node])) /\
   exists chs,
     Forall2 (fun p ch =>
       map Some ch =
         if String.eqb (pname_of p) "Slots"
         then map build_slot (filter slot_kept (members p))
         else [build_node p (JStr (pname_of p))])
       [GScalar "Name" (PStr "Sequence"); GVector "Slots" [slot "A1"; slot "V1"]] chs /\
     [CNode (JStr "Name") "Property" (Some (JStr "Sequence")) None; v1_node] = concat chs).
Proof.
  split; [split; [reflexivity|]|split; split].
  - exact (proj1 (proj2 (proj2 (proj2 (proj2 (proj2 (proj2 original_export_exclusion))))))
             "MasterMob" (Named "Interview")
             [GScalar "Name" (PStr "Interview"); GVector "Slots" [slot "A1"]] None
             (JStr "Interview") eq_refl).
  - vm_compute. reflexivity.
  - exact (proj1 (proj2 (proj2 (proj2 original_export_exclusion))) Original
             (IG (GVector "Slots" [slot "A1"; slot "V1"]))
             (CNode (JStr "Slots") "StrongRefVectorProperty" None (Some [v1_node]))
             ltac:(vm_compute; reflexivity)).
  - vm_compute. reflexivity.
  - exact (proj2 (proj2 (proj2 (proj2 (proj2 (proj2 (proj2 original_export_exclusion))))))
             (Named "Sequence")
             [GScalar "Name" (PStr "Sequence"); GVector "Slots" [slot "A1"; slot "V1"]] None
             (JStr "Sequence")
             (CNode (JStr "Sequence") "CompositionMob" None
                (Some [CNode (JStr "Name") "Property" (Some (JStr "Sequence")) None; v1_node]))
             ltac:(vm_compute; reflexivity)).
Defined.

(** C7 (counterexample): a SourceClip with one property has two rows in
    the tree of either inspector (its property and "Source Mob Ref"), and
    the batch converter keeps the source order of properties. *)
Lemma source_clip_backref_rows :
  child_count Enhanced (IG source_clip) = 2%nat /\
  child_count Original (IG source_clip) = 2%nat /\
  length [GScalar "Length" (PInt 10)] = 1%nat /\
  build_node unsorted_obj (JStr "Sequence") =
  Some (CNode (JStr "Sequence") "Sequence" None
          (Some [CNode (JStr "Length") "Property" (Some (JInt 10)) None;
                 CNode (JStr "DataDefinition") "Property" (Some (JStr "picture")) None])).
Proof. repeat split; vm_compute; reflexivity. Qed.

(** C7 (amended): the rows of an object in the tree ([child(i)] for [i] in
    [range(childCount())]) are its properties, stably sorted by name (a
    permutation, in name order, properties of equal name kept in source
    order), followed by the "Source Mob Ref" and "Source Slot Ref" rows of
    its non-null back-references (for every object exposing them in the
    enhanced version, for SourceClips in the original one); so childCount is
    the number of properties plus the number of those rows.  The batch
    converter does not sort: it converts the properties one for one in
    source order, except that a CompositionMob's Slots property is replaced
    by its non-excluded slots. *)
Theorem object_rows v c n props refs nm :
  extended v (IG (GObject c n props refs)) =
    (map IG (sort_by pname_of props) ++ backref_items v c refs)%list /\
  child_items v (IG (GObject c n props refs)) =
    (map IG (sort_by pname_of props) ++ backref_items v c refs)%list /\
  child_count v (IG (GObject c n props refs)) =
    (length props +
     (if backref_gate v c then
        match refs with Some (m, s) => count_some m + count_some s | None => 0 end
      else 0))%nat /\
  Permutation (sort_by pname_of props) props /\
  Sorted (key_le pname_of) (sort_by pname_of props) /\
  (forall k, filter (fun p => String.eqb (pname_of p) k) (sort_by pname_of props) =
             filter (fun p => String.eqb (pname_of p) k) props) /\
  (String.eqb c "CompositionMob" = false ->
   build_node (GObject c n props refs) nm =
   option_map (fun ch => CNode nm c None (nonempty ch))
     (traverse (fun p => build_node p (JStr (pname_of p))) props)) /\
  (forall cn, build_node (GObject c n props refs) nm = Some cn ->
   exists chs,
     Forall2 (fun p ch =>
       map Some ch =
         if String.eqb c "CompositionMob" && String.eqb (pname_of p) "Slots"
         then map build_slot (filter slot_kept (members p))
         else [build_node p (JStr (pname_of p))]) props chs /\
     cchildren cn = concat chs).
Proof.
  split; [reflexivity|]. split; [apply child_items_ext; discriminate|].
  split; [|split; [apply sort_by_perm|split; [apply sort_by_sorted|split; [|split]]]].
  - unfold child_count, extended. rewrite length_app, length_map.
    rewrite (Permutation_length (sort_by_perm pname_of props)). f_equal.
    unfold backref_items. destruct (backref_gate v c); [|reflexivity].
    destruct refs as [[[m|] [s|]]|]; reflexivity.
  - intros k. apply sort_by_stable.
  - apply build_node_plain.
  - intros cn H. exact (build_object_children _ _ _ _ _ _ H).
Qed.

Lemma object_rows_witness :
  (String.eqb "Sequence" "CompositionMob" = false /\
   build_node unsorted_obj (JStr "Sequence") =
   option_map (fun ch => CNode (JStr "Sequence") "Sequence" None (nonempty ch))
     (traverse (fun p => build_node p (JStr (pname_of p)))
        [GScalar "Length" (PInt 10); GScalar "DataDefinition" (PStr "picture")])) /\
  (build_node comp (JStr "Sequence") =
     Some (CNode (JStr "Sequence") "CompositionMob" None
             (Some [CNode (JStr "Name") "Property" (Some (JStr "Sequence")) None; v1_node])) /\
   exists chs,
     Forall2 (fun p ch =>
       map Some ch =
         if String.eqb "CompositionMob" "CompositionMob" && String.eqb (pname_of p) "Slots"
         then map build_slot (filter slot_kept (members p))
         else [build_node p (JStr (pname_of p))])
       [GScalar "Name" (PStr "Sequence"); GVector "Slots" [slot "A1"; slot "V1"]] chs /\
     [CNode (JStr "Name") "Property" (Some (JStr "Sequence")) None; v1_node] = concat chs).
Proof.
  split; [split; [reflexivity|]|split].
  - exact (proj1 (proj2 (proj2 (proj2 (proj2 (proj2 (proj2
             (object_rows Enhanced "Sequence" NoName
                [GScalar "Length" (PInt 10); GScalar "DataDefinition" (PStr "picture")] None
                (JStr "Sequence")))))))) eq_refl).
  - vm_compute. reflexivity.
  - exact (proj2 (proj2 (proj2 (proj2 (proj2 (proj2 (proj2
             (object_rows Original "CompositionMob" (Named "Sequence")
                [GScalar "Name" (PStr "Sequence"); GVector "Slots" [slot "A1"; slot "V1"]] None
                (JStr "Sequence"))))))))
             (CNode (JStr "Sequence") "CompositionMob" None
                (Some [CNode (JStr "Name") "Property" (Some (JStr "Sequence")) None; v1_node]))
             ltac:(vm_compute; reflexivity)).
Defined.

(** C9: on a set property a negative row is not rejected: row -1 returns
    the item of the last sorted key (the item of row 1 of a two-entry set),
    and a row below minus the number of entries raises [IndexError]; the
    vector sibling returns [None] for negative rows.  In general every row
    in [-len, 0) yields a child, and every row below [-len] raises. *)
Theorem set_child_negative_rows v :
  child v (IG mob_set) (-1) = Child (IG master_mob) (-1) /\
  child v (IG mob_set) 1 = Child (IG master_mob) 1 /\
  child v (IG mob_set) 2 = NoChild /\
  child v (IG mob_set) (-3) = ChildRaises /\
  child v (IG (GVector "Slots" [slot "A1"])) (-1) = NoChild /\
  (forall n entries row, (- Z.of_nat (length entries) <= row < 0)%Z ->
     exists it, child v (IG (GSet n entries)) row = Child it row) /\
  (forall n entries row, (row < - Z.of_nat (length entries))%Z ->
     child v (IG (GSet n entries)) row = ChildRaises).
Proof.
  split; [destruct v; vm_compute; reflexivity|].
  split; [destruct v; vm_compute; reflexivity|].
  split; [destruct v; vm_compute; reflexivity|].
  split; [destruct v; vm_compute; reflexivity|].
  split; [destruct v; vm_compute; reflexivity|].
  split; intros n entries row Hr; [apply set_child_negative|apply set_child_below]; exact Hr.
Qed.

Lemma set_child_negative_rows_witness :
  (- Z.of_nat (length [(5%Z, master_mob); (3%Z, source_clip)]) <= -2 < 0)%Z /\
  (exists it, child Original (IG mob_set) (-2) = Child it (-2)) /\
  (-3 < - Z.of_nat (length [(5%Z, master_mob); (3%Z, source_clip)]))%Z /\
  child Original (IG mob_set) (-3) = ChildRaises.
Proof.
  split; [simpl; lia|]. split.
  - apply (proj1 (proj2 (proj2 (proj2 (proj2 (proj2 (set_child_negative_rows Original)))))));
      simpl; lia.
  - split; [simpl; lia|].
    apply (proj2 (proj2 (proj2 (proj2 (proj2 (proj2 (set_child_negative_rows Original))))))).
    simpl; lia.
Defined.

End InspectorFacts.

(** * Facts about the batch worker *)
Module BatchFacts.

Import Batch.

Lemma run_loop_running converts files : forall i total,
  snd (run_loop (Some true) converts i total files) = false /\
  filter outcome (fst (run_loop (Some true) converts i total files)) =
  map (process_file converts) files.
Proof.
  induction files as [|path t IH]; intros i total; [split; reflexivity|].
  simpl. destruct (IH (S i) total) as [H1 H2].
  destruct (run_loop (Some true) converts (S i) total t) as [rest raised].
  simpl in *. split; [exact H1|].
  unfold process_file at 1. destruct (converts path); simpl; rewrite H2; reflexivity.
Qed.

(** C8: a [Worker] as [start_conversion] creates it has no [is_running]
    attribute, so [run] raises [AttributeError] before the first file (or,
    for an empty list, at the final check): it emits the error and
    [finished], and no file is converted or reported.  With [is_running]
    set, every file is reported exactly once, in order. *)
Theorem fresh_worker_converts_nothing files converts :
  run (init_worker files) converts = [WorkerError; Finished] /\
  filter outcome (run {| file_list := files; is_running := Some true |} converts) =
  map (process_file converts) files.
Proof.
  split.
  - destruct files; reflexivity.
  - unfold run. simpl.
    destruct (run_loop_running converts files 0 (length files)) as [H1 H2].
    destruct (run_loop (Some true) converts 0 (length files) files) as [sigs raised].
    simpl in *. subst raised. rewrite filter_app, H2. simpl. rewrite app_nil_r. reflexivity.
Qed.

End BatchFacts.

(** * Further facts about the timeline reconstructor *)
Module ParseExtra.

Import ParseAAF Samples Props ParseFacts.
Open Scope string_scope.

Lemma find_app_none {A : Type} (p : A -> bool) pre c post :
  forallb (fun x => negb (p x)) pre = true -> p c = true -> find p (pre ++ c :: post) = Some c.
Proof.
  induction pre as [|x t IH]; simpl; [intros _ ->; reflexivity|].
  intros H Hc. apply andb_true_iff in H as [Hx Ht].
  destruct (p x); [discriminate|]. apply IH; assumption.
Qed.

(** X1: following a path in two parts is following it at once. *)
Theorem find_node_by_path_app (node : json) (p q : list string) :
  find_node_by_path node (p ++ q) =
  let* m := find_node_by_path node p in find_node_by_path m q.
Proof.
  revert node. induction p as [|key rest IH]; intros node; [reflexivity|].
  simpl. destruct node; try (destruct q; reflexivity).
  destruct (dget fields "children") as [ch|]; [|destruct q; reflexivity].
  destruct (py_iter ch) as [l|]; [|reflexivity].
  destruct (find (named key) l) as [c|]; [apply IH|destruct q; reflexivity].
Qed.

(** X2: a name shared by several children resolves to the first of them. *)
Theorem find_node_by_path_first (f : list (string * json)) (pre post : list json)
    (c : json) (key : string) (rest : list string) :
  dget f "children" = Some (JArr (pre ++ c :: post)) ->
  forallb (fun x => negb (named key x)) pre = true -> named key c = true ->
  find_node_by_path (JObj f) (key :: rest) = find_node_by_path c rest.
Proof.
  intros Hch Hpre Hc. simpl. rewrite Hch. simpl.
  rewrite (find_app_none _ _ _ _ Hpre Hc). reflexivity.
Qed.

Lemma find_node_by_path_first_witness :
  dget [("children", JArr [jnode "A" "Prop" []; jnode "B" "First" []; jnode "B" "Second" []])] "children"
    = Some (JArr ([jnode "A" "Prop" []] ++ jnode "B" "First" [] :: [jnode "B" "Second" []])) /\
  forallb (fun x => negb (named "B" x)) [jnode "A" "Prop" []] = true /\
  named "B" (jnode "B" "First" []) = true /\
  find_node_by_path (JObj [("children", JArr [jnode "A" "Prop" []; jnode "B" "First" []; jnode "B" "Second" []])]) ["B"]
    = find_node_by_path (jnode "B" "First" []) [].
Proof.
  split; [reflexivity|]. split; [reflexivity|]. split; [reflexivity|].
  apply (find_node_by_path_first _ [jnode "A" "Prop" []] [jnode "B" "Second" []]); reflexivity.
Defined.

Lemma pc_step_count (tl : list event) (cur : Z) (c : json) tl' cur' :
  pc_step (tl, cur) c = Some (tl', cur') ->
  length tl' = (length tl + if class_is "SourceClip" c then 1 else 0)%nat.
Proof.
  unfold pc_step.
  destruct (is_dict c) eqn:Hd; simpl.
  - destruct (class_is "SourceClip" c) eqn:Hs.
    + destruct (value_of c "Length"); simpl; [|discriminate].
      destruct (int_or_0 j); simpl; [|discriminate].
      destruct (value_of c "StartTime"); simpl; [|discriminate].
      destruct (get_child_property c "Source Mob Ref" None); simpl; [|discriminate].
      destruct (clip_name_of j1); simpl; [|discriminate].
      intros H; inversion H; subst. rewrite length_app. reflexivity.
    + destruct (class_is "OperationGroup" c).
      * destruct tl as [|e0 tl0] eqn:Etl.
        -- intros H; inversion H; reflexivity.
        -- rewrite <- Etl.
           destruct (parse_effect c) as [eff|]; simpl; [|discriminate].
           destruct (animated_params eff); intros H; inversion H; subst;
             [lia|rewrite map_last_length; lia].
      * intros H; inversion H; lia.
  - intros H; inversion H; subst.
    destruct c; simpl in Hd |- *; try discriminate; lia.
Qed.

Lemma pc_loop_count (l : list json) : forall tl cur tl' cur',
  pc_loop l (tl, cur) = Some (tl', cur') ->
  length tl' = (length tl + length (filter (class_is "SourceClip") l))%nat.
Proof.
  induction l as [|c t IH]; intros tl cur tl' cur' H; cbn [pc_loop] in H.
  - inversion H; simpl; lia.
  - unfold obind in H. destruct (pc_step (tl, cur) c) as [[tl1 cur1]|] eqn:Hs; [|discriminate].
    apply pc_step_count in Hs. rewrite (IH _ _ _ _ H), Hs. simpl.
    destruct (class_is "SourceClip" c); simpl; lia.
Qed.

(** X3: a timeline has one event per SourceClip child of the Components
    node, whatever else the node holds. *)
Theorem parse_components_count (n ch : json) (l : list json) (tl : list event) :
  children_of n = Some (Some ch) -> py_iter ch = Some l ->
  parse_components n = Some tl ->
  length tl = length (filter (class_is "SourceClip") l).
Proof.
  intros Hc Hi. unfold parse_components. rewrite Hc. cbn [obind]. rewrite Hi. cbn [obind].
  destruct (pc_loop l ([], 0%Z)) as [[tl' cur']|] eqn:E; cbn [obind]; [|discriminate].
  intros H; inversion H; subst. apply pc_loop_count in E. exact E.
Qed.

Lemma parse_components_count_witness :
  children_of (components [fade; clip (JInt 100) "A"; filler 5; bare_clip (JInt 7)]) =
    Some (Some (JArr [fade; clip (JInt 100) "A"; filler 5; bare_clip (JInt 7)])) /\
  py_iter (JArr [fade; clip (JInt 100) "A"; filler 5; bare_clip (JInt 7)]) =
    Some [fade; clip (JInt 100) "A"; filler 5; bare_clip (JInt 7)] /\
  (exists tl, parse_components (components [fade; clip (JInt 100) "A"; filler 5; bare_clip (JInt 7)]) = Some tl /\
   length tl = length (filter (class_is "SourceClip") [fade; clip (JInt 100) "A"; filler 5; bare_clip (JInt 7)])).
Proof.
  split; [reflexivity|]. split; [reflexivity|].
  eexists. split; [reflexivity|].
  apply (parse_components_count (components [fade; clip (JInt 100) "A"; filler 5; bare_clip (JInt 7)]) (JArr [fade; clip (JInt 100) "A"; filler 5; bare_clip (JInt 7)])
           [fade; clip (JInt 100) "A"; filler 5; bare_clip (JInt 7)]); reflexivity.
Defined.

(** X4: components before the first SourceClip, effects included, are
    dropped: the timeline is the one of the remaining components. *)
Theorem leading_non_clips_ignored (pre rest : list json) :
  Forall (fun c => class_is "SourceClip" c = false) pre ->
  pc_loop (pre ++ rest) ([], 0%Z) = pc_loop rest ([], 0%Z).
Proof.
  induction 1 as [|c t Hc _ IH]; [reflexivity|].
  simpl app. cbn [pc_loop].
  assert (E : pc_step ([], 0%Z) c = Some ([], 0%Z)).
  { unfold pc_step. rewrite Hc. destruct (is_dict c); simpl; [|reflexivity].
    destruct (class_is "OperationGroup" c); reflexivity. }
  rewrite E. exact IH.
Qed.

Lemma leading_non_clips_ignored_witness :
  Forall (fun c => class_is "SourceClip" c = false) [fade; filler 5] /\
  pc_loop ([fade; filler 5] ++ [clip (JInt 100) "A"]) ([], 0%Z) = pc_loop [clip (JInt 100) "A"] ([], 0%Z).
Proof.
  split; [repeat constructor|].
  apply leading_non_clips_ignored. repeat constructor.
Defined.

Lemma collect_keyframes_none (l : list json) :
  forallb (fun x => negb (class_is "ControlPoint" x)) l = true -> collect_keyframes l = Some [].
Proof.
  induction l as [|x t IH]; simpl; [reflexivity|].
  intros H. apply andb_true_iff in H as [Hx Ht].
  unfold control_point. destruct (class_is "ControlPoint" x); [discriminate|].
  rewrite andb_false_r. cbn [obind]. rewrite IH by exact Ht. reflexivity.
Qed.

(** X5: [parse_keyframes] reads the VaryingValue's direct children only (the
    ControlPoints lookup never yields the wrapper); when none of them is a
    ControlPoint, e.g. the points sit under a ControlPoints wrapper, there is
    no keyframe. *)
Theorem parse_keyframes_direct (f : list (string * json)) (l : list json) :
  dget f "children" = Some (JArr l) ->
  parse_keyframes (JObj f) = collect_keyframes l /\
  (forallb (fun x => negb (class_is "ControlPoint" x)) l = true -> parse_keyframes (JObj f) = Some []).
Proof.
  intros Hch.
  assert (E : parse_keyframes (JObj f) = collect_keyframes l).
  { unfold parse_keyframes, py_get_default, get_child_property. rewrite Hch. cbn [obind py_iter].
    destruct (find (named "ControlPoints") l); reflexivity. }
  split; [exact E|]. intros H. rewrite E. apply collect_keyframes_none, H.
Qed.

Lemma parse_keyframes_direct_witness :
  dget [("name", JStr "Level"); ("children", JArr [jnode "ControlPoints" "StrongRefVectorProperty"
          [control_pt (JInt 0) (JInt 1)]])] "children"
    = Some (JArr [jnode "ControlPoints" "StrongRefVectorProperty" [control_pt (JInt 0) (JInt 1)]]) /\
  parse_keyframes (JObj [("name", JStr "Level"); ("children", JArr [jnode "ControlPoints" "StrongRefVectorProperty"
          [control_pt (JInt 0) (JInt 1)]])]) = Some [].
Proof.
  split; [reflexivity|].
  apply (proj2 (parse_keyframes_direct [("name", JStr "Level"); ("children", JArr [jnode "ControlPoints" "StrongRefVectorProperty"
          [control_pt (JInt 0) (JInt 1)]])] [jnode "ControlPoints" "StrongRefVectorProperty" [control_pt (JInt 0) (JInt 1)]]
          eq_refl)).
  reflexivity.
Defined.

Lemma fcr_shape (fuel : nat) : forall (node r : json),
  fcr fuel node = Some r ->
  r = JNull \/ (named "Components" r = true /\ has_key "children" r = true).
Proof.
  induction fuel as [|n IH]; intros node r H; cbn [fcr] in H.
  - inversion H; left; reflexivity.
  - destruct (named "Components" node && has_key "children" node) eqn:Hc.
    + inversion H; subst. apply andb_true_iff in Hc. right; exact Hc.
    + destruct node; try (inversion H; left; reflexivity).
      destruct (dget fields "children") as [ch|]; [|inversion H; left; reflexivity].
      destruct (py_iter ch) as [l|]; cbn [obind] in H; [|discriminate].
      induction l as [|c t IHl]; [inversion H; left; reflexivity|].
      cbn [obind] in H. destruct (fcr n c) as [res|] eqn:Ef; [|discriminate].
      cbn [obind] in H. destruct (truthy res).
      * inversion H; subst. apply (IH c r Ef).
      * apply IHl, H.
Qed.

(** X6: the Components search returns either [None] or a dict named
    "Components" that has a "children" key, never any other node. *)
Theorem find_components_recursively_shape (node r : json) :
  find_components_recursively node = Some r ->
  r = JNull \/ (named "Components" r = true /\ has_key "children" r = true).
Proof. apply fcr_shape. Qed.

Lemma find_components_recursively_shape_witness :
  find_components_recursively (jnode "Slot" "TimelineMobSlot" [jnode "Segment" "Sequence" [components [filler 3]]])
    = Some (components [filler 3]) /\
  (components [filler 3] = JNull \/
   (named "Components" (components [filler 3]) = true /\ has_key "children" (components [filler 3]) = true)).
Proof.
  split; [reflexivity|].
  apply (find_components_recursively_shape
           (jnode "Slot" "TimelineMobSlot" [jnode "Segment" "Sequence" [components [filler 3]]])).
  reflexivity.
Defined.

End ParseExtra.

(** * Further facts about the tree, the export and the batch projection *)
Module InspectorExtra.
Import ParseAAF Inspector Samples Props InspectorFacts.
Open Scope string_scope.

Lemma child_ext v it row :
  (0 <= row < Z.of_nat (length (extended v it)))%Z ->
  exists c, child v it row = Child c row.
Proof.
  intros Hr. unfold child.
  rewrite (proj2 (Z.leb_le 0 row)) by lia.
  rewrite (proj2 (Z.ltb_lt row _)) by lia. cbn [andb].
  destruct (nth_error (extended v it) (Z.to_nat row)) as [c|] eqn:E; [eauto|].
  apply nth_error_None in E. lia.
Qed.

Lemma child_outside v it row :
  ~ (0 <= row < Z.of_nat (length (extended v it)))%Z ->
  child v it row =
    match it with
    | IG (GSet _ entries) =>
        if (row <? Z.of_nat (length (references it)))%Z then
          match py_index (references it) row with
          | Some key => match lookup_key key entries with Some g => Child (IG g) row | None => Child INone row end
          | None => ChildRaises
          end
        else NoChild
    | IG (GVector _ items) =>
        if (0 <=? row)%Z && (row <? Z.of_nat (length items))%Z then
          match nth_error items (Z.to_nat row) with Some g => Child (IG g) row | None => NoChild end
        else NoChild
    | _ => NoChild
    end.
Proof.
  intros Hr. unfold child.
  destruct (Z.leb_spec 0 row); destruct (Z.ltb_spec row (Z.of_nat (length (extended v it)))); try lia;
    reflexivity.
Qed.

Lemma py_index_none {A : Type} (l : list A) (i : Z) :
  (i < Z.of_nat (length l))%Z -> py_index l i = None -> (i < - Z.of_nat (length l))%Z.
Proof.
  intros Hi. unfold py_index.
  destruct ((0 <=? i)%Z && (i <? Z.of_nat (length l))%Z) eqn:E1.
  - apply andb_true_iff in E1 as [E1 E2]. apply Z.leb_le in E1. apply Z.ltb_lt in E2.
    destruct (nth_error l (Z.to_nat i)) eqn:E; [discriminate|]. apply nth_error_None in E. lia.
  - destruct ((- Z.of_nat (length l) <=? i)%Z && (i <? 0)%Z) eqn:E3.
    + apply andb_true_iff in E3 as [E3 E4]. apply Z.leb_le in E3. apply Z.ltb_lt in E4.
      destruct (nth_error l _) eqn:E; [discriminate|]. apply nth_error_None in E. lia.
    + intros _. apply andb_false_iff in E1, E3.
      destruct E1 as [E1|E1]; destruct E3 as [E3|E3];
        first [apply Z.leb_gt in E1 | apply Z.ltb_ge in E1];
        first [apply Z.leb_gt in E3 | apply Z.ltb_ge in E3]; lia.
Qed.

Lemma child_plain v it row :
  (forall n items, it <> IG (GVector n items)) ->
  (forall n entries, it <> IG (GSet n entries)) ->
  ((0 <= row < Z.of_nat (child_count v it))%Z -> exists c, child v it row = Child c row) /\
  ((Z.of_nat (child_count v it) <= row)%Z -> child v it row = NoChild) /\
  (child v it row = ChildRaises <->
   exists n entries, it = IG (GSet n entries) /\ (row < - Z.of_nat (length entries))%Z).
Proof.
  intros Hv Hs.
  assert (Hc : child_count v it = length (extended v it)).
  { destruct it as [|[]| |]; try reflexivity; [destruct (Hv pname items eq_refl)|destruct (Hs pname entries eq_refl)]. }
  assert (Hn : ~ (0 <= row < Z.of_nat (length (extended v it)))%Z -> child v it row = NoChild).
  { intros Hr. rewrite (child_outside v it row Hr).
    destruct it as [|[]| |]; try reflexivity; [destruct (Hv pname items eq_refl)|destruct (Hs pname entries eq_refl)]. }
  rewrite Hc. split; [apply child_ext|]. split; [intros Hr; apply Hn; lia|].
  split; [|intros (n0 & e0 & He & _); destruct (Hs _ _ He)].
  intros H. exfalso.
  destruct (Z_le_dec 0 row); destruct (Z_lt_dec row (Z.of_nat (length (extended v it)))).
  - destruct (child_ext v it row ltac:(lia)) as [c' Hc']. congruence.
  - rewrite Hn in H by lia. discriminate.
  - rewrite Hn in H by lia. discriminate.
  - rewrite Hn in H by lia. discriminate.
Qed.

(** X7: [TreeItem.child] materialises a child at every row from 0 to
    [childCount() - 1], returns [None] at every row from [childCount()] on,
    and raises only on a set property asked for a row below minus its
    number of entries. *)
Theorem child_rows v it row :
  ((0 <= row < Z.of_nat (child_count v it))%Z -> exists c, child v it row = Child c row) /\
  ((Z.of_nat (child_count v it) <= row)%Z -> child v it row = NoChild) /\
  (child v it row = ChildRaises <->
   exists n entries, it = IG (GSet n entries) /\ (row < - Z.of_nat (length entries))%Z).
Proof.
  destruct it as [l|g|label t|];
    [|destruct g as [c n props refs|pn pv|pn o|pn items|pn entries]| |];
    try (apply child_plain; congruence).
  - (* vector *)
    assert (Hx : length (extended v (IG (GVector pn items))) = 0%nat) by reflexivity.
    cbn [child_count].
    rewrite (child_outside v _ row) by (rewrite Hx; lia).
    split; [|split].
    + intros Hr. rewrite (proj2 (Z.leb_le 0 row)) by lia.
      rewrite (proj2 (Z.ltb_lt row _)) by lia. cbn [andb].
      destruct (nth_error items (Z.to_nat row)) eqn:E; [eauto|].
      apply nth_error_None in E. lia.
    + intros Hr. rewrite (proj2 (Z.ltb_ge row _)) by lia. rewrite andb_false_r. reflexivity.
    + split; [|intros (n0 & e0 & He & _); discriminate].
      destruct ((0 <=? row)%Z && (row <? Z.of_nat (length items))%Z);
        [destruct (nth_error items _)|]; discriminate.
  - (* set *)
    assert (Hx : length (extended v (IG (GSet pn entries))) = 0%nat) by reflexivity.
    cbn [child_count].
    rewrite (child_outside v _ row) by (rewrite Hx; lia).
    unfold references. rewrite length_sort_Z, length_map. split; [|split].
    + intros Hr. rewrite (proj2 (Z.ltb_lt row _)) by lia.
      destruct (py_index (sort_Z (map fst entries)) row) as [key|] eqn:E.
      * destruct (lookup_key key entries); eauto.
      * apply py_index_none in E; rewrite length_sort_Z, length_map in *; lia.
    + intros Hr. rewrite (proj2 (Z.ltb_ge row _)) by lia. reflexivity.
    + split.
      * destruct (Z.ltb_spec row (Z.of_nat (length entries))); [|discriminate].
        destruct (py_index (sort_Z (map fst entries)) row) as [key|] eqn:E;
          [destruct (lookup_key key entries); discriminate|].
        intros _. exists pn, entries. split; [reflexivity|].
        apply py_index_none in E; rewrite length_sort_Z, length_map in *; lia.
      * intros (n0 & e0 & He & Hr). inversion He; subst.
        rewrite (proj2 (Z.ltb_lt row _)) by lia.
        unfold py_index. rewrite length_sort_Z, length_map.
        rewrite (proj2 (Z.leb_gt 0 row)) by lia.
        rewrite (proj2 (Z.leb_gt (- Z.of_nat (length e0)) row)) by lia. reflexivity.
Qed.

Lemma child_rows_witness :
  (0 <= 1 < Z.of_nat (child_count Enhanced (IG mob_set)))%Z /\
  (exists c, child Enhanced (IG mob_set) 1 = Child c 1) /\
  child Enhanced (IG mob_set) 2 = NoChild /\
  child Enhanced (IG mob_set) (-3) = ChildRaises.
Proof.
  assert (Hc : child_count Enhanced (IG mob_set) = 2%nat) by reflexivity.
  rewrite Hc.
  split; [lia|].
  split; [apply (proj1 (child_rows Enhanced (IG mob_set) 1)); rewrite Hc; lia|].
  split; [apply (proj1 (proj2 (child_rows Enhanced (IG mob_set) 2))); rewrite Hc; lia|].
  apply (proj2 (proj2 (proj2 (child_rows Enhanced (IG mob_set) (-3))))).
  exists "Mobs", [(5%Z, master_mob); (3%Z, source_clip)]. split; [reflexivity|]. simpl; lia.
Defined.

Lemma nonempty_no_empty {A : Type} (l : list A) : nonempty l <> Some [].
Proof. destruct l; discriminate. Qed.

Section BuildAllNe.
Variable f : cnode -> bool.
Hypothesis Hnode : forall nm cls l, f (CNode nm cls None (nonempty l)) = true.
Hypothesis Hleaf : forall nm pv, f (CNode nm "Property" (Some (serialize pv)) None) = true.

Lemma build_ne_children nm cls l :
  (forall y, In y l -> all_nodes f y = true) -> all_nodes f (CNode nm cls None (nonempty l)) = true.
Proof.
  intros H. cbn [all_nodes]. rewrite Hnode. apply nonempty_forallb, forallb_forall. exact H.
Qed.

Lemma build_node_all_ne : forall g,
  (forall nm, opt_all f (build_node g nm) = true) /\
  (forall x, In x (members g) -> forall nm, opt_all f (build_node x nm) = true).
Proof.
  apply gnode_ind'.
  - intros c n props refs Hp _. split; [|intros x []].
    intros nm. cbn [build_node].
    destruct (traverse _ props) as [chs|] eqn:E; simpl; [|reflexivity].
    apply build_ne_children. intros y Hy.
    apply in_concat_iff' in Hy as [l [Hl Hy]].
    destruct (traverse_in _ _ _ E l Hl) as [p [Hin Ep]].
    rewrite Forall_forall in Hp. destruct (Hp p Hin) as [Hp1 Hp2].
    destruct (String.eqb c "CompositionMob" && String.eqb (pname_of p) "Slots").
    + destruct p as [| | |n' slots|n' entries]; try discriminate.
      * destruct (traverse _ slots) as [kept|] eqn:Ek; simpl in Ep; [|discriminate].
        inversion Ep; subst. apply in_concat_iff' in Hy as [l' [Hl' Hy]].
        destruct (traverse_in _ _ _ Ek l' Hl') as [slot [Hs Es]].
        exact (slot_child_all f slot _ l' (Hp2 slot Hs) Es y Hy).
      * destruct (traverse _ entries) as [kept|] eqn:Ek; simpl in Ep; [|discriminate].
        inversion Ep; subst. apply in_concat_iff' in Hy as [l' [Hl' Hy]].
        destruct (traverse_in _ _ _ Ek l' Hl') as [[k slot] [Hs Es]].
        refine (slot_child_all f slot _ l' (Hp2 slot _) Es y Hy).
        simpl. apply in_map_iff. exists (k, slot). auto.
    + specialize (Hp1 (JStr (pname_of p))).
      destruct (build_node p (JStr (pname_of p))) as [cn|]; simpl in Ep; [|discriminate].
      inversion Ep; subst. destruct Hy as [<-|[]]. exact Hp1.
  - intros n pv. split; [|intros x []]. intros nm. simpl. rewrite Hleaf. reflexivity.
  - intros n [t|] Ht; (split; [|intros x []]); intros nm; cbn [build_node].
    + destruct Ht as [Ht _]. specialize (Ht (child_name t)).
      destruct (build_node t (child_name t)) as [cn|]; simpl in *; [|reflexivity].
      change (Some [cn]) with (nonempty [cn]). rewrite Hnode. simpl. rewrite Ht. reflexivity.
    + simpl. change (@None (list cnode)) with (@nonempty cnode []). rewrite Hnode. reflexivity.
  - intros n items Hi. rewrite Forall_forall in Hi.
    split; [|intros x Hx; exact (proj1 (Hi x Hx))].
    intros nm. cbn [build_node].
    destruct (traverse _ items) as [chs|] eqn:E; simpl; [|reflexivity].
    apply build_ne_children. intros y Hy.
    destruct (traverse_in _ _ _ E y Hy) as [x [Hx Ex]].
    pose proof (proj1 (Hi x Hx) (child_name x)) as H. rewrite Ex in H. exact H.
  - intros n entries He. rewrite Forall_forall in He.
    split.
    + intros nm. cbn [build_node].
      destruct (traverse _ entries) as [chs|] eqn:E; simpl; [|reflexivity].
      apply build_ne_children. intros y Hy.
      destruct (traverse_in _ _ _ E y Hy) as [[k x] [Hx Ex]].
      pose proof (proj1 (He _ Hx) (child_name x)) as H. simpl in Ex, H. rewrite Ex in H. exact H.
    + intros x Hx nm. simpl in Hx. apply in_map_iff in Hx as [[k x'] [Ex Hx]].
      simpl in Ex; subst x'. exact (proj1 (He _ Hx) nm).
Qed.

Lemma batch_document_all_ne : forall g, opt_all f (batch_document g) = true.
Proof.
  intros g. unfold batch_document.
  pose proof (proj1 (build_node_all_ne g) (JStr "Header")) as H.
  destruct (build_node g (JStr "Header")) as [cn|]; simpl in *; [|reflexivity].
  change (Some [cn]) with (nonempty [cn]). rewrite Hnode. simpl. rewrite H. reflexivity.
Qed.

End BuildAllNe.

(** X8: no node of the JSON export (both inspector versions) or of the
    batch converter's document carries an empty ["children"] list: the key
    is written only when there is at least one child. *)
Theorem no_empty_children_list :
  (forall v it, opt_all no_empty_children (convert_node_to_dict v it) = true) /\
  (forall g nm, opt_all no_empty_children (build_node g nm) = true) /\
  (forall g, opt_all no_empty_children (batch_document g) = true).
Proof.
  assert (Hne : forall nm cls value (l : list cnode), no_empty_children (CNode nm cls value (nonempty l)) = true)
    by (intros nm cls value [|x t]; reflexivity).
  split; [|split].
  - intros v. apply convert_node_to_dict_all.
    intros it value kids c E _. apply mk_some in E as [_ ->]. apply Hne.
  - intros g. apply build_node_all_ne; [intros; apply Hne|reflexivity].
  - apply batch_document_all_ne; [intros; apply Hne|reflexivity].
Qed.

Lemma mk_enhanced it value kids :
  mk Enhanced it value kids = Some (CNode (JStr (name it)) (class_name it) value (nonempty (filter_some kids))).
Proof. reflexivity. Qed.

Lemma conv_g_enhanced_some g : conv_g Enhanced g <> None.
Proof.
  destruct g as [c n props refs|pn pv|pn [t|]|pn items|pn entries]; cbn [conv_g];
    rewrite mk_enhanced; discriminate.
Qed.

Lemma length_filter_some {A : Type} (kids : list (option A)) :
  Forall (fun o => o <> None) kids -> length (filter_some kids) = length kids.
Proof.
  induction 1 as [|o t Ho _ IH]; [reflexivity|].
  destruct o; [simpl; rewrite IH; reflexivity|congruence].
Qed.

Lemma cchildren_nonempty nm cls value (l : list cnode) :
  cchildren (CNode nm cls value (nonempty l)) = l.
Proof. destruct l; reflexivity. Qed.

Lemma enhanced_rows_mk it value kids :
  Forall (fun o => o <> None) kids ->
  exists c, mk Enhanced it value kids = Some c /\ length (cchildren c) = length kids.
Proof.
  intros H. rewrite mk_enhanced. eexists. split; [reflexivity|].
  rewrite cchildren_nonempty. apply length_filter_some, H.
Qed.

Lemma backref_lengths c refs :
  length (if backref_gate Enhanced c then
          match refs with
          | Some (m, s) =>
              ((match m with Some t => [mk Enhanced (IDummy "Source Mob Ref" t) None [conv_g Enhanced t]] | None => [] end) ++
               (match s with Some t => [mk Enhanced (IDummy "Source Slot Ref" t) None [conv_g Enhanced t]] | None => [] end))%list
          | None => []
          end
        else []) = length (backref_items Enhanced c refs) /\
  Forall (fun o => o <> None)
        (if backref_gate Enhanced c then
          match refs with
          | Some (m, s) =>
              ((match m with Some t => [mk Enhanced (IDummy "Source Mob Ref" t) None [conv_g Enhanced t]] | None => [] end) ++
               (match s with Some t => [mk Enhanced (IDummy "Source Slot Ref" t) None [conv_g Enhanced t]] | None => [] end))%list
          | None => []
          end
        else []).
Proof.
  unfold backref_items. cbn [backref_gate].
  destruct refs as [[[m|] [s|]]|]; split; try reflexivity; repeat constructor; rewrite mk_enhanced; discriminate.
Qed.

(** X9: the enhanced inspector's JSON export drops no row: the node it
    writes for any tree item has exactly [childCount()] children. *)
Theorem enhanced_export_rows it :
  exists c, convert_node_to_dict Enhanced it = Some c /\ length (cchildren c) = child_count Enhanced it.
Proof.
  destruct it as [l|g|label t|].
  - cbn [convert_node_to_dict child_count extended]. rewrite length_map.
    rewrite <- (length_map (conv_g Enhanced) l). apply enhanced_rows_mk.
    apply Forall_map, Forall_forall. intros g _. apply conv_g_enhanced_some.
  - destruct g as [c n props refs|pn pv|pn [t|]|pn items|pn entries];
      cbn [convert_node_to_dict conv_g child_count extended].
    + destruct (backref_lengths c refs) as [Hl Hs].
      destruct (enhanced_rows_mk (IG (GObject c n props refs)) None
                 (map snd (sort_by fst (map (fun p => (pname_of p, conv_g Enhanced p)) props)) ++
                  (if backref_gate Enhanced c then
                     match refs with
                     | Some (m, s) =>
                         ((match m with Some t => [mk Enhanced (IDummy "Source Mob Ref" t) None [conv_g Enhanced t]] | None => [] end) ++
                          (match s with Some t => [mk Enhanced (IDummy "Source Slot Ref" t) None [conv_g Enhanced t]] | None => [] end))%list
                     | None => []
                     end
                   else []))%list) as [cn [E Ec]].
      { apply Forall_app. split; [|exact Hs].
        apply Forall_forall. intros o Ho. apply in_map_iff in Ho as [[k o'] [Eo Hin]].
        simpl in Eo; subst o'. apply in_sort_by, in_map_iff in Hin as [p [Ep _]].
        inversion Ep; subst. apply conv_g_enhanced_some. }
      exists cn. split; [exact E|]. rewrite Ec, !length_app, Hl, !length_map.
      rewrite (Permutation_length (sort_by_perm fst _)), length_map.
      rewrite ?length_app, ?length_map, (Permutation_length (sort_by_perm pname_of props)). reflexivity.
    + rewrite mk_enhanced. eexists; split; reflexivity.
    + apply (enhanced_rows_mk _ _ [conv_g Enhanced t]). repeat constructor. apply conv_g_enhanced_some.
    + rewrite mk_enhanced. eexists; split; reflexivity.
    + rewrite <- (length_map (conv_g Enhanced) items). apply enhanced_rows_mk.
      apply Forall_map, Forall_forall. intros g _. apply conv_g_enhanced_some.
    + rewrite <- (length_map fst entries), <- length_sort_Z, <- (length_map (fun k =>
          match lookup_key k (map (fun '(k0, x) => (k0, conv_g Enhanced x)) entries) with
          | Some r => r | None => conv_none Enhanced end) (sort_Z (map fst entries))).
      apply enhanced_rows_mk. apply Forall_map, Forall_forall. intros key _.
      destruct (lookup_key key _) as [r|] eqn:E.
      * apply lookup_key_in, in_map_iff in E as [[k x] [Ekx _]]. inversion Ekx; subst.
        apply conv_g_enhanced_some.
      * unfold conv_none. rewrite mk_enhanced. discriminate.
  - apply (enhanced_rows_mk _ _ [conv_g Enhanced t]). repeat constructor. apply conv_g_enhanced_some.
  - unfold convert_node_to_dict, conv_none. rewrite mk_enhanced. eexists; split; reflexivity.
Qed.

Lemma existsb_false_in {A : Type} (h : A -> bool) (l : list A) :
  existsb h l = false -> forall x, In x l -> h x = false.
Proof.
  intros H x Hx. destruct (h x) eqn:E; [|reflexivity].
  rewrite <- H. symmetry. apply existsb_exists. eauto.
Qed.

Lemma traverse_some {A B : Type} (h : A -> option B) (l : list A) :
  (forall x, In x l -> exists y, h x = Some y) -> exists r, traverse h l = Some r.
Proof.
  induction l as [|x t IH]; intros H; [eexists; reflexivity|].
  destruct (H x (or_introl eq_refl)) as [y Hy].
  destruct IH as [r Hr]; [intros z Hz; apply H; right; exact Hz|].
  exists (y :: r). simpl. rewrite Hy. cbn [obind]. rewrite Hr. reflexivity.
Qed.

(** X10: the batch converter's [build_node] never raises on a part of the
    graph that contains no CompositionMob: only iterating a
    CompositionMob's Slots can fail. *)
Theorem build_node_no_comp_mob (g : gnode) :
  has_comp_mob g = false -> forall nm, exists c, build_node g nm = Some c.
Proof.
  revert g. apply (gnode_ind' (fun g => has_comp_mob g = false -> forall nm, exists c, build_node g nm = Some c)).
  - intros c n props refs Hp _ H nm. cbn [has_comp_mob] in H.
    apply orb_false_iff in H as [Hc Hx].
    rewrite (build_node_plain c n props refs nm Hc).
    destruct (traverse_some (fun p => build_node p (JStr (pname_of p))) props) as [r Hr].
    + intros p Hin. rewrite Forall_forall in Hp. apply (Hp p Hin).
      exact (existsb_false_in _ _ Hx p Hin).
    + rewrite Hr. eexists; reflexivity.
  - intros n pv _ nm. eexists; reflexivity.
  - intros n [t|] Ht H nm; cbn [build_node]; [|eexists; reflexivity].
    cbn [has_comp_mob] in H. destruct (Ht H (child_name t)) as [cn Hcn].
    rewrite Hcn. eexists; reflexivity.
  - intros n items Hi H nm. cbn [build_node]. cbn [has_comp_mob] in H.
    destruct (traverse_some (fun x => build_node x (child_name x)) items) as [r Hr].
    + intros x Hin. rewrite Forall_forall in Hi. apply (Hi x Hin).
      exact (existsb_false_in _ _ H x Hin).
    + rewrite Hr. eexists; reflexivity.
  - intros n entries He H nm. cbn [build_node]. cbn [has_comp_mob] in H.
    destruct (traverse_some (fun '(_, x) => build_node x (child_name x)) entries) as [r Hr].
    + intros [k x] Hin. rewrite Forall_forall in He. apply (He (k, x) Hin).
      exact (existsb_false_in _ _ H (k, x) Hin).
    + rewrite Hr. eexists; reflexivity.
Qed.

Lemma build_node_no_comp_mob_witness :
  has_comp_mob mob_set = false /\ exists c, build_node mob_set (JStr "Mobs") = Some c.
Proof.
  split; [reflexivity|]. apply build_node_no_comp_mob. reflexivity.
Defined.

End InspectorExtra.

(** * The signals of a batch run *)
Module BatchExtra.
Import Batch.

Lemma run_loop_trace converts total files : forall i,
  run_loop (Some true) converts i total files =
  (concat (map (fun '(k, p) => [Processing k total p; process_file converts p])
               (combine (seq (S i) (length files)) files)), false).
Proof.
  induction files as [|path t IH]; intros i; [reflexivity|].
  cbn [run_loop]. rewrite IH. reflexivity.
Qed.

(** X11: a worker whose [is_running] flag is set reports, for the k-th file,
    "Processing file k of n" then that file's outcome, and ends with the
    completion message and [finished]; a worker stopped before [run]
    converts nothing and emits "Process cancelled." only when it has a
    file to skip. *)
Theorem run_trace (files : list string) (converts : string -> bool) :
  run {| file_list := files; is_running := Some true |} converts =
    (concat (map (fun '(k, p) => [Processing k (length files) p; process_file converts p])
                 (combine (seq 1 (length files)) files)) ++ [Complete; Finished])%list /\
  run (stop {| file_list := files; is_running := Some true |}) converts =
    match files with [] => [Finished] | _ => [Cancelled; Finished] end.
Proof.
  split.
  - unfold run. cbn [file_list is_running]. rewrite run_loop_trace. reflexivity.
  - destruct files; reflexivity.
Qed.

End BatchExtra.

(** * Facts about Find Next / Find Previous *)
Module SearchFacts.
Import Inspector Search Samples Props.
Open Scope string_scope.

Section Nav.
Context {R : Type}.
Variable search : string -> list R.

Lemma navigate_ok (w : window R) :
  search_results w <> [] -> (0 <= current_search_index w < Z.of_nat (length (search_results w)))%Z ->
  exists r, navigate w = NavTo r.
Proof.
  intros Hne Hi. unfold navigate.
  destruct (search_results w) as [|x t]; [congruence|].
  unfold py_index. cbv zeta.
  rewrite (proj2 (Z.leb_le 0 (current_search_index w))) by lia.
  rewrite (proj2 (Z.ltb_lt (current_search_index w) _)) by lia. cbn [andb].
  destruct (nth_error (x :: t) _) eqn:En; [eauto|].
  apply nth_error_None in En. lia.
Qed.

Lemma refresh_ok t w : index_ok w -> index_ok (refresh search t w).
Proof.
  unfold refresh, index_ok. destruct (negb _); [|auto].
  intros _. simpl. lia.
Qed.

Lemma init_ok : index_ok (init (R:=R)).
Proof. unfold index_ok; simpl; lia. Qed.

(** X12: Find Next and Find Previous keep the current search index between
    -1 and the last result, starting from the window's initial state, and
    so never raise [IndexError]: each call shows a result or nothing. *)
Theorem search_index_invariant :
  index_ok (init (R:=R)) /\
  (forall t w, index_ok w ->
     index_ok (fst (find_next search t w)) /\ snd (find_next search t w) <> NavRaises) /\
  (forall t w, index_ok w ->
     index_ok (fst (find_previous search t w)) /\ snd (find_previous search t w) <> NavRaises).
Proof.
  split; [apply init_ok|]. split.
  - intros t w Hw. unfold find_next.
    destruct (String.eqb t ""); [split; [exact Hw|discriminate]|].
    pose proof (refresh_ok t w Hw) as H1. remember (refresh search t w) as w1.
    unfold index_ok in H1.
    destruct (search_results w1) as [|x l] eqn:E; [split; [unfold index_ok; cbn [fst]; rewrite E; exact H1|discriminate]|].
    cbv zeta.
    destruct (Z.leb_spec (Z.of_nat (length (x :: l))) (current_search_index w1 + 1)%Z);
      (split; [unfold index_ok; cbn [fst set_index current_search_index search_results]; rewrite E; simpl length in *; lia|]);
      (match goal with |- context [navigate ?w2] => destruct (navigate_ok w2) as [r Hr] end;
       [cbn [set_index search_results]; rewrite E; discriminate
       |cbn [set_index search_results current_search_index]; rewrite E; simpl length in *; lia
       |cbn [snd]; rewrite Hr; discriminate]).
  - intros t w Hw. unfold find_previous.
    destruct (String.eqb t ""); [split; [exact Hw|discriminate]|].
    pose proof (refresh_ok t w Hw) as H1. remember (refresh search t w) as w1.
    unfold index_ok in H1.
    destruct (search_results w1) as [|x l] eqn:E; [split; [unfold index_ok; cbn [fst]; rewrite E; exact H1|discriminate]|].
    cbv zeta.
    destruct (Z.ltb_spec (current_search_index w1 - 1)%Z 0);
      (split; [unfold index_ok; cbn [fst set_index current_search_index search_results]; rewrite E; simpl length in *; lia|]);
      (match goal with |- context [navigate ?w2] => destruct (navigate_ok w2) as [r Hr] end;
       [cbn [set_index search_results]; rewrite E; discriminate
       |cbn [set_index search_results current_search_index]; rewrite E; simpl length in *; lia
       |cbn [snd]; rewrite Hr; discriminate]).
Qed.

Lemma lower_empty : lower "" = "".
Proof. reflexivity. Qed.

Lemma last_irrel {A : Type} (l : list A) (d d' : A) : l <> [] -> last l d = last l d'.
Proof.
  induction l as [|x t IH]; intros H; [congruence|].
  destruct t as [|y t']; [reflexivity|]. apply IH. discriminate.
Qed.

Lemma nth_error_last {A : Type} (rs : list A) : forall r,
  nth_error (r :: rs) (length rs) = Some (last (r :: rs) r).
Proof.
  induction rs as [|y t IH]; intros r; [reflexivity|].
  cbn [length]. change (nth_error (r :: y :: t) (S (length t))) with (nth_error (y :: t) (length t)).
  rewrite IH. f_equal. change (last (y :: t) y = last (y :: t) r). apply last_irrel. discriminate.
Qed.

Lemma fresh_search t w r rs :
  String.eqb t "" = false -> lower t <> last_search_term w -> search (lower t) = r :: rs ->
  find_next search t w =
    (set_index (perform_search search t) 0, NavTo r) /\
  find_previous search t w =
    (set_index (perform_search search t) (Z.of_nat (length rs)), NavTo (last (r :: rs) r)).
Proof.
  intros Ht Hl Hs.
  assert (Hr : refresh search t w = perform_search search t).
  { unfold refresh. destruct (String.eqb_spec (lower t) (last_search_term w)); [congruence|reflexivity]. }
  unfold find_next, find_previous. rewrite Ht, Hr. cbn [search_results perform_search]. rewrite Hs.
  cbn zeta. cbn [current_search_index perform_search]. split.
  - rewrite (proj2 (Z.leb_gt _ _)) by (cbn [length]; lia).
    f_equal. unfold navigate. cbn [set_index search_results perform_search current_search_index].
    rewrite Hs. reflexivity.
  - rewrite (proj2 (Z.ltb_lt _ _)) by lia.
    assert (E : (Z.of_nat (length (r :: rs)) - 1)%Z = Z.of_nat (length rs)) by (cbn [length]; lia).
    rewrite E. f_equal. unfold navigate. cbn [set_index search_results perform_search current_search_index].
    rewrite Hs. unfold py_index. cbv zeta.
    rewrite (proj2 (Z.leb_le 0 (Z.of_nat (length rs)))) by lia.
    rewrite (proj2 (Z.ltb_lt (Z.of_nat (length rs)) _)) by (cbn [length]; lia). cbn [andb].
    rewrite Nat2Z.id, nth_error_last. reflexivity.
Qed.

(** X13: because the last term is remembered as typed but compared lower-cased,
    a term containing an upper-case letter restarts the search at every
    press: Find Next always shows the first match and Find Previous always
    the last one, however often they are pressed. *)
Theorem mixed_case_term_restarts (t : string) (r : R) (rs : list R) (w : window R) :
  lower t <> t -> search (lower t) = r :: rs -> last_search_term w <> lower t ->
  forall k,
    snd (find_next search t (presses (find_next search t) k w)) = NavTo r /\
    snd (find_previous search t (presses (find_previous search t) k w)) = NavTo (last (r :: rs) r).
Proof.
  intros Hlt Hs Hw.
  assert (Ht : String.eqb t "" = false).
  { destruct (String.eqb_spec t ""); [subst; rewrite lower_empty in Hlt; congruence|reflexivity]. }
  assert (Hn : forall k, last_search_term (presses (find_next search t) k w) <> lower t).
  { induction k as [|k IH]; [exact Hw|].
    unfold presses. rewrite Nat.iter_succ. fold (presses (find_next search t) k w).
    rewrite (proj1 (fresh_search t _ r rs Ht (not_eq_sym IH) Hs)). cbn. congruence. }
  assert (Hp : forall k, last_search_term (presses (find_previous search t) k w) <> lower t).
  { induction k as [|k IH]; [exact Hw|].
    unfold presses. rewrite Nat.iter_succ. fold (presses (find_previous search t) k w).
    rewrite (proj2 (fresh_search t _ r rs Ht (not_eq_sym IH) Hs)). cbn. congruence. }
  intros k. split.
  - rewrite (proj1 (fresh_search t _ r rs Ht (not_eq_sym (Hn k)) Hs)). reflexivity.
  - rewrite (proj2 (fresh_search t _ r rs Ht (not_eq_sym (Hp k)) Hs)). reflexivity.
Qed.

Lemma step_mod (k n : nat) : n <> 0%nat ->
  (if (Z.of_nat n <=? Z.of_nat (k mod n) + 1)%Z then 0%Z else (Z.of_nat (k mod n) + 1)%Z)
  = Z.of_nat (S k mod n).
Proof.
  intros Hn. pose proof (Nat.mod_upper_bound k n Hn) as Hb.
  replace (S k) with (k mod n + 1 + k / n * n)%nat
    by (pose proof (Nat.div_mod_eq k n) as Hd; rewrite (Nat.mul_comm n) in Hd; lia).
  rewrite Nat.Div0.mod_add.
  destruct (Z.leb_spec (Z.of_nat n) (Z.of_nat (k mod n) + 1)).
  - assert (E : (k mod n + 1 = n)%nat) by lia. rewrite E, Nat.Div0.mod_same. reflexivity.
  - rewrite (Nat.mod_small (k mod n + 1) n) by lia. lia.
Qed.

Lemma lower_cycle_state t (l : list R) :
  lower t = t -> String.eqb t "" = false -> search t = l -> l <> [] ->
  forall k,
    find_next search t
      (presses (find_next search t) k (init (R:=R))) =
    ({| last_search_term := t; search_results := l; current_search_index := Z.of_nat (k mod length l) |},
     navigate {| last_search_term := t; search_results := l; current_search_index := Z.of_nat (k mod length l) |}).
Proof.
  intros Hlt Ht Hs Hne.
  assert (Hlen : length l <> 0%nat) by (destruct l; [congruence|discriminate]).
  induction k as [|k IH].
  - change (presses (find_next search t) 0 (init (R:=R))) with (init (R:=R)).
    unfold find_next. rewrite Ht. unfold refresh. rewrite Hlt.
    replace (negb (String.eqb t (last_search_term (init (R:=R))))) with true
      by (cbn [init last_search_term]; destruct (String.eqb_spec t ""); [subst; discriminate|reflexivity]).
    cbn [perform_search search_results current_search_index]. rewrite Hlt, Hs.
    destruct l as [|x l']; [congruence|]. cbv zeta.
    rewrite Nat.Div0.mod_0_l. rewrite (proj2 (Z.leb_gt _ _)) by (cbn [length]; lia).
    unfold set_index, perform_search. cbn [last_search_term search_results current_search_index].
    rewrite Hlt, Hs. reflexivity.
  - unfold presses. rewrite Nat.iter_succ. fold (presses (find_next search t) k (init (R:=R))).
    rewrite IH. cbn [fst]. unfold find_next. rewrite Ht. unfold refresh. cbn [last_search_term].
    rewrite Hlt, String.eqb_refl. cbn [negb search_results current_search_index].
    destruct l as [|x l']; [congruence|]. cbv zeta.
    rewrite (step_mod k (length (x :: l')) Hlen). reflexivity.
Qed.

Lemma navigate_at t (l : list R) (m : nat) :
  (m < length l)%nat ->
  exists r, nth_error l m = Some r /\
    navigate {| last_search_term := t; search_results := l; current_search_index := Z.of_nat m |} = NavTo r.
Proof.
  intros Hm. destruct (nth_error l m) as [r|] eqn:E; [|apply nth_error_None in E; lia].
  exists r. split; [reflexivity|]. unfold navigate. cbn [search_results current_search_index].
  destruct l as [|x l']; [cbn in Hm; lia|]. unfold py_index. cbv zeta.
  rewrite (proj2 (Z.leb_le 0 (Z.of_nat m))) by lia.
  rewrite (proj2 (Z.ltb_lt (Z.of_nat m) _)) by lia. cbn [andb].
  rewrite Nat2Z.id, E. reflexivity.
Qed.

(** X14: with a lower-case term, repeated Find Next presses from a fresh
    window walk through the matches in order and wrap around: press
    [k + 1] shows match number [k mod n] (0-based) of the [n] matches. *)
Theorem lower_case_term_cycles (t : string) (l : list R) :
  lower t = t -> t <> "" -> search t = l -> l <> [] ->
  forall k, exists r, nth_error l (k mod length l) = Some r /\
    snd (find_next search t (presses (find_next search t) k (init (R:=R)))) = NavTo r.
Proof.
  intros Hlt Ht Hs Hne k.
  assert (Ht' : String.eqb t "" = false) by (apply String.eqb_neq; exact Ht).
  assert (Hlen : length l <> 0%nat) by (destruct l; [congruence|discriminate]).
  rewrite (lower_cycle_state t l Hlt Ht' Hs Hne k). cbn [snd].
  apply navigate_at. apply Nat.mod_upper_bound, Hlen.
Qed.

End Nav.

Lemma search_index_invariant_witness :
  index_ok (init (R:=nat)) /\
  index_ok (fst (find_next clip_search "Clip" init)) /\ snd (find_next clip_search "Clip" init) <> NavRaises.
Proof.
  split; [unfold index_ok; simpl; lia|].
  apply (proj1 (proj2 (search_index_invariant clip_search)) "Clip" init).
  unfold index_ok; simpl; lia.
Defined.

Lemma mixed_case_term_restarts_witness :
  lower "Clip" <> "Clip" /\ clip_search (lower "Clip") = [1; 2; 3]%nat /\
  last_search_term (init (R:=nat)) <> lower "Clip" /\
  snd (find_next clip_search "Clip" (presses (find_next clip_search "Clip") 2 init)) = NavTo 1%nat /\
  snd (find_previous clip_search "Clip" (presses (find_previous clip_search "Clip") 2 init)) = NavTo 3%nat.
Proof.
  split; [discriminate|]. split; [reflexivity|]. split; [discriminate|].
  apply (mixed_case_term_restarts clip_search "Clip" 1%nat [2; 3]%nat init); [discriminate|reflexivity|discriminate].
Defined.

Lemma lower_case_term_cycles_witness :
  lower "clip" = "clip" /\ "clip" <> "" /\ clip_search "clip" = [1; 2; 3]%nat /\
  exists r, nth_error [1; 2; 3]%nat (4 mod 3) = Some r /\
    snd (find_next clip_search "clip" (presses (find_next clip_search "clip") 4 init)) = NavTo r.
Proof.
  split; [reflexivity|]. split; [discriminate|]. split; [reflexivity|].
  apply (lower_case_term_cycles clip_search "clip" [1; 2; 3]%nat); [reflexivity|discriminate|reflexivity|discriminate].
Defined.

End SearchFacts.
